(** * zulip-markdown: the fence escaper and the spoiler / code-block helpers

    A shallow embedding of [zlmd/escaper.go] ([_EscapeMarkdown],
    [processSpoilerContent]) and of the spoiler and code-block helpers
    ([EscapeMarkdown], [WriteSpoiler], [Spoiler], [WriteCodeBlock], ...),
    together with the pieces of Go's [strings] package they call.

    Go strings are byte sequences: they are modelled by [string], whose
    characters are the 256 byte values.  Go's [int] is modelled by [Z]
    (only lengths and indices occur, far from the 64-bit bounds). *)

From Stdlib Require Import String Ascii List ZArith Bool Lia.
Import ListNotations.

Local Open Scope string_scope.
Local Open Scope Z_scope.

(** ** Control flow of a Go function body

    A statement either falls through to the next one, executes a [return],
    or panics (an index out of range). *)

Inductive flow (A : Type) : Type :=
| Next (a : A)
| Return (r : string * bool)
| Panic.

Arguments Next {A} a.
Arguments Return {A} r.
Arguments Panic {A}.

Definition flow_bind {A B : Type} (m : flow A) (k : A -> flow B) : flow B :=
  match m with
  | Next a => k a
  | Return r => Return r
  | Panic => Panic
  end.

Notation "x <- m ;; k" := (flow_bind m (fun x => k))
  (at level 61, m at next level, right associativity).

(** The value a call yields: the operand of the [return] that was executed,
    or nothing when the body panicked. *)
Definition call (body : flow (string * bool)) : option (string * bool) :=
  match body with
  | Next r => Some r
  | Return r => Some r
  | Panic => None
  end.

(** [for i := lo; i < hi; i++ { body }] over a loop state of type [S]. *)
Fixpoint forCount {S : Type} (count : nat) (i : Z)
    (body : Z -> S -> flow S) (s : S) : flow S :=
  match count with
  | O => Next s
  | Datatypes.S k => s' <- body i s ;; forCount k (i + 1) body s'
  end.

Definition forRange {S : Type} (lo hi : Z) (body : Z -> S -> flow S) (s : S)
  : flow S :=
  forCount (Z.to_nat (hi - lo)) lo body s.

(** [for i, x := range xs { body }], started at index [i]. *)
Fixpoint rangeLoop {S : Type} (i : Z) (xs : list string)
    (body : Z -> string -> S -> flow S) (s : S) : flow S :=
  match xs with
  | [] => Next s
  | x :: xs' => s' <- body i x s ;; rangeLoop (i + 1) xs' body s'
  end.

(** ** The functions of Go's [strings] package used by the repository *)

Module strings.

(** The byte ['\n']. *)
Definition nl : ascii := ascii_of_nat 10.
Definition NL : string := String nl EmptyString.

(** [len(xs)] of a slice. *)
Definition len {A : Type} (xs : list A) : Z := Z.of_nat (List.length xs).

(** [xs[i]]: panics (here [Panic]) when [i] is out of range. *)
Definition index (xs : list string) (i : Z) : flow string :=
  if (i <? 0) || (len xs <=? i) then Panic
  else match nth_error xs (Z.to_nat i) with
       | Some x => Next x
       | None => Panic
       end.

(** [strings.Split(s, sep)] for a one-byte separator: the pieces of [s]
    between the occurrences of [sep]; never the empty slice. *)
Fixpoint Split (s : string) (sep : ascii) : list string :=
  match s with
  | EmptyString => [EmptyString]
  | String c s' =>
      if Ascii.eqb c sep then EmptyString :: Split s' sep
      else match Split s' sep with
           | l :: ls => String c l :: ls
           | [] => [String c EmptyString]
           end
  end.

(** [strings.Join(xs, sep)]. *)
Fixpoint Join (xs : list string) (sep : string) : string :=
  match xs with
  | [] => EmptyString
  | [x] => x
  | x :: xs' => x ++ sep ++ Join xs' sep
  end.

(** [strings.HasPrefix(s, prefix)]. *)
Definition HasPrefix (s p : string) : bool := String.prefix p s.

(** [s[n:]] for [n <= len(s)]. *)
Fixpoint drop (n : nat) (s : string) : string :=
  match n, s with
  | O, _ => s
  | Datatypes.S n', String _ s' => drop n' s'
  | Datatypes.S _, EmptyString => EmptyString
  end.

(** [strings.TrimPrefix(s, prefix)]. *)
Definition TrimPrefix (s p : string) : string :=
  if HasPrefix s p then drop (String.length p) s else s.

(** [unicode.IsSpace] on the runes below [utf8.RuneSelf]:
    ['\t'], ['\n'], ['\v'], ['\f'], ['\r'] and [' ']. *)
Definition isSpace1 (c : ascii) : bool :=
  let n := nat_of_ascii c in
  ((9 <=? n) && (n <=? 13))%nat || (n =? 32)%nat.

(** The two-byte UTF-8 encodings of runes with [unicode.IsSpace]:
    U+0085 and U+00A0. *)
Definition isSpace2 (c1 c2 : ascii) : bool :=
  (nat_of_ascii c1 =? 194)%nat
  && ((nat_of_ascii c2 =? 133)%nat || (nat_of_ascii c2 =? 160)%nat).

(** The three-byte UTF-8 encodings of runes with [unicode.IsSpace]:
    U+1680, U+2000..U+200A, U+2028, U+2029, U+202F, U+205F, U+3000. *)
Definition isSpace3 (c1 c2 c3 : ascii) : bool :=
  let n1 := nat_of_ascii c1 in
  let n2 := nat_of_ascii c2 in
  let n3 := nat_of_ascii c3 in
  ((n1 =? 225) && (n2 =? 154) && (n3 =? 128))%nat
  || ((n1 =? 226) && (n2 =? 128)
      && (((128 <=? n3) && (n3 <=? 138))
          || (n3 =? 168) || (n3 =? 169) || (n3 =? 175)))%nat
  || ((n1 =? 226) && (n2 =? 129) && (n3 =? 159))%nat
  || ((n1 =? 227) && (n2 =? 128) && (n3 =? 128))%nat.

(** [strings.TrimLeftFunc(s, unicode.IsSpace)]: the leading runes are
    decoded one after the other and dropped while they are white space.
    A rune is white space exactly when the bytes at that place are one of
    the encodings above (anything else decodes to another rune or to
    [utf8.RuneError], which is not white space). *)
Fixpoint TrimLeftSpace (s : string) : string :=
  match s with
  | EmptyString => s
  | String c1 s1 =>
      if isSpace1 c1 then TrimLeftSpace s1 else
      match s1 with
      | EmptyString => s
      | String c2 s2 =>
          if isSpace2 c1 c2 then TrimLeftSpace s2 else
          match s2 with
          | EmptyString => s
          | String c3 s3 =>
              if isSpace3 c1 c2 c3 then TrimLeftSpace s3 else s
          end
      end
  end.

(** The same scan from the end, on the reversed list of bytes
    ([utf8.DecodeLastRuneInString] steps back to the start byte of the last
    rune and decodes forward from there). *)
Fixpoint trimRev (r : list ascii) : list ascii :=
  match r with
  | [] => r
  | c1 :: r1 =>
      if isSpace1 c1 then trimRev r1 else
      match r1 with
      | [] => r
      | c2 :: r2 =>
          if isSpace2 c2 c1 then trimRev r2 else
          match r2 with
          | [] => r
          | c3 :: r3 =>
              if isSpace3 c3 c2 c1 then trimRev r3 else r
          end
      end
  end.

(** [strings.TrimRightFunc(s, unicode.IsSpace)]. *)
Definition TrimRightSpace (s : string) : string :=
  string_of_list_ascii (rev (trimRev (rev (list_ascii_of_string s)))).

(** [strings.TrimSpace(s)]: [s] without its leading and trailing white
    space, as Unicode defines it. *)
Definition TrimSpace (s : string) : string :=
  TrimRightSpace (TrimLeftSpace s).

(** [strings.Contains(s, substr)]. *)
Fixpoint Contains (s sub : string) : bool :=
  HasPrefix s sub
  || match s with
     | EmptyString => false
     | String _ s' => Contains s' sub
     end.

(** The loop of [strings.Replace(s, old, new, -1)] for a non-empty [old]:
    the occurrences of [old] are found from left to right, each search
    starting after the previous match.  [skip] counts the bytes of the
    current match that are still to be passed over. *)
Fixpoint replaceFrom (skip : nat) (s old new : string) : string :=
  match s with
  | EmptyString => EmptyString
  | String c s' =>
      match skip with
      | Datatypes.S k => replaceFrom k s' old new
      | O =>
          if HasPrefix s old
          then new ++ replaceFrom (Nat.pred (String.length old)) s' old new
          else String c (replaceFrom O s' old new)
      end
  end.

(** [strings.ReplaceAll(s, old, new)].  Only a non-empty [old] is
    modelled (the repository passes the fence token); with an empty [old]
    Go inserts [new] around every rune, which is left out: [s] is
    returned as it is. *)
Definition ReplaceAll (s old new : string) : string :=
  match old with
  | EmptyString => s
  | String _ _ => replaceFrom O s old new
  end.

(** The largest [int] (a 64-bit platform). *)
Definition maxInt : Z := 2 ^ 63 - 1.

(** [n] copies of [s], one after the other. *)
Fixpoint replicate (n : nat) (s : string) : string :=
  match n with
  | O => EmptyString
  | Datatypes.S k => s ++ replicate k s
  end.

(** [strings.Repeat(s, count)]: panics (here [None]) when [count] is
    negative or when the length of the result overflows [int]. *)
Definition Repeat (s : string) (count : Z) : option string :=
  if count <? 0 then None
  else if maxInt <? Z.of_nat (String.length s) * count then None
  else Some (replicate (Z.to_nat count) s).

(** [make([]string, n)]: [n] empty strings. *)
Definition make (n : Z) : list string := repeat EmptyString (Z.to_nat n).

(** [xs[i] = v]: panics (here [None]) when [i] is out of range. *)
Definition store {A : Type} (xs : list A) (i : Z) (v : A) : option (list A) :=
  if (i <? 0) || (len xs <=? i) then None
  else Some (firstn (Z.to_nat i) xs
             ++ v :: skipn (Datatypes.S (Z.to_nat i)) xs)%list.

End strings.

Import strings.

(** ** [zlmd/escaper.go] *)

(** The locals of the loop of [processSpoilerContent]. *)
Record nested : Type := mkNested {
  nresult : string;        (* result strings.Builder *)
  inNestedCode : bool;
  fenceBalance : Z
}.

(** The body of [for i := 1; i < numLines-1; i++] after
    [line := lines[i]]. *)
Definition nestedLine (spoilerBlock line : string) (s : nested)
  : flow nested :=
  let trimmedLine := TrimSpace line in
  s1 <- (if negb (inNestedCode s) then
           if HasPrefix trimmedLine "```" then
             if negb (fenceBalance s =? 0) then Return (spoilerBlock, false)
             else Next (mkNested (nresult s ++ ("~~~" ++ TrimPrefix line "```"))
                                 true 1)
           else Next (mkNested (nresult s ++ line)
                               (inNestedCode s) (fenceBalance s))
         else
           if String.eqb trimmedLine "```" then
             if negb (fenceBalance s =? 1) then Return (spoilerBlock, false)
             else Next (mkNested (nresult s ++ "~~~") false 0)
           else Next (mkNested (nresult s ++ line)
                               (inNestedCode s) (fenceBalance s))) ;;
  Next (mkNested (nresult s1 ++ NL) (inNestedCode s1) (fenceBalance s1)).

(** One iteration of [for i := 1; i < numLines-1; i++]. *)
Definition nestedBody (spoilerBlock : string) (lines : list string)
    (i : Z) (s : nested) : flow nested :=
  line <- index lines i ;;
  nestedLine spoilerBlock line s.

Definition processSpoilerContent_body (spoilerBlock : string)
  : flow (string * bool) :=
  let trimmedBlock := TrimSpace spoilerBlock in
  if String.eqb trimmedBlock EmptyString then Return (EmptyString, true) else
  let lines := Split trimmedBlock nl in
  let numLines := len lines in
  noOpener <- (if numLines =? 0 then Next true
               else l0 <- index lines 0 ;;
                    Next (negb (HasPrefix l0 "```spoiler"))) ;;
  if noOpener : bool then Return (spoilerBlock, false) else
  noCloser <- (if numLines <? 2 then Next true
               else ll <- index lines (numLines - 1) ;;
                    Next (negb (String.eqb ll "```"))) ;;
  if noCloser : bool then Return (spoilerBlock, false) else
  l0 <- index lines 0 ;;
  s <- forRange 1 (numLines - 1) (nestedBody spoilerBlock lines)
         (mkNested (l0 ++ NL) false 0) ;;
  if inNestedCode s || negb (fenceBalance s =? 0)
  then Return (spoilerBlock, false) else
  ll <- index lines (numLines - 1) ;;
  Return (nresult s ++ ll, true).

(** [func processSpoilerContent(spoilerBlock string) (string, bool)];
    [None] stands for a panic. *)
Definition processSpoilerContent (spoilerBlock : string)
  : option (string * bool) :=
  call (processSpoilerContent_body spoilerBlock).

(** The locals of the loop of [_EscapeMarkdown]. *)
Record scan : Type := mkScan {
  result : string;          (* result strings.Builder *)
  spoilerContent : string;  (* spoilerContent strings.Builder *)
  inSpoiler : bool;
  inTopLevelCode : bool
}.

(** [line], followed by a newline unless [i] is the last index. *)
Definition withNewline (numLines i : Z) (line : string) : string :=
  if i <? numLines - 1 then line ++ NL else line.

(** One iteration of [for i, line := range lines]; [numLines] is
    [len(lines)]. *)
Definition scanBody (markdown : string) (numLines : Z)
    (i : Z) (line : string) (s : scan) : flow scan :=
  let trimmedLine := TrimSpace line in
  if inSpoiler s then
    let content := spoilerContent s ++ withNewline numLines i line in
    if String.eqb trimmedLine "```" then
      match processSpoilerContent content with
      | None => Panic
      | Some (processedSpoiler, ok) =>
          if negb ok then Return (markdown, false)
          else Next (mkScan (result s ++ processedSpoiler) content
                            false (inTopLevelCode s))
      end
    else Next (mkScan (result s) content true (inTopLevelCode s))
  else if inTopLevelCode s then
    let res := result s ++ withNewline numLines i line in
    if String.eqb trimmedLine "```"
    then Next (mkScan res (spoilerContent s) (inSpoiler s) false)
    else Next (mkScan res (spoilerContent s) (inSpoiler s) (inTopLevelCode s))
  else
    if HasPrefix trimmedLine "```spoiler" then
      Next (mkScan (result s) (withNewline numLines i line)
                   true (inTopLevelCode s))
    else if HasPrefix trimmedLine "```" then
      Next (mkScan (result s ++ withNewline numLines i line)
                   (spoilerContent s) (inSpoiler s) true)
    else
      Next (mkScan (result s ++ withNewline numLines i line)
                   (spoilerContent s) (inSpoiler s) (inTopLevelCode s)).

(** The locals before the loop. *)
Definition scan0 : scan := mkScan EmptyString EmptyString false false.

(** The loop of [_EscapeMarkdown] over all the lines of [markdown]. *)
Definition scanLines (markdown : string) : flow scan :=
  let lines := Split markdown nl in
  rangeLoop 0 lines (scanBody markdown (len lines)) scan0.

Definition _EscapeMarkdown_body (markdown : string) : flow (string * bool) :=
  s <- scanLines markdown ;;
  if inSpoiler s || inTopLevelCode s then Return (markdown, false)
  else Return (result s, true).

(** [func _EscapeMarkdown(markdown string) (string, bool)];
    [None] stands for a panic. *)
Definition _EscapeMarkdown (markdown : string) : option (string * bool) :=
  call (_EscapeMarkdown_body markdown).

(** ** The spoiler and code-block helpers *)

(** Go's [error]: [None] is [nil]. *)
Definition error : Type := option string.

(** [func EscapeMarkdown(v string) (string, error)]. *)
Definition EscapeMarkdown (v : string) : string * error := (v, None).

(** [func WriteSpoiler(sb *strings.Builder, heading string, text string)];
    the builder is passed as its content and the new content is returned. *)
Definition WriteSpoiler (sb heading text : string) : string :=
  let sb := sb ++ "```spoiler " in
  let sb := sb ++ heading in
  let sb := sb ++ NL in
  let processedText :=
    if Contains text "```" then ReplaceAll text "```" "~~~" else text in
  let sb := sb ++ processedText in
  sb ++ (NL ++ "```").

(** [func Spoiler(heading string, text string) string]. *)
Definition Spoiler (heading text : string) : string :=
  WriteSpoiler EmptyString heading text.

(** [func SpoilerEscaped(heading string, text string, fence string) string]. *)
Definition SpoilerEscaped (heading text fence : string) : string :=
  let sb := EmptyString ++ fence in
  let sb := sb ++ "spoiler" in
  let sb := sb ++ " " in
  let sb := sb ++ heading in
  let sb := sb ++ NL in
  let transformed := fst (EscapeMarkdown text) in
  let sb := sb ++ transformed in
  let sb := sb ++ NL in
  sb ++ fence.

(** [func WriteCodeBlock(sb *strings.Builder, language string, text string)]. *)
Definition WriteCodeBlock (sb language text : string) : string :=
  let sb := sb ++ "```" in
  let sb := sb ++ language in
  let sb := sb ++ NL in
  let transformed := fst (EscapeMarkdown text) in
  let sb := sb ++ transformed in
  let sb := sb ++ NL in
  sb ++ "```".

(** [func CodeBlock(language string, text string) string]. *)
Definition CodeBlock (language text : string) : string :=
  WriteCodeBlock EmptyString language text.

(** [func WriteMarkdownBlock(sb *strings.Builder, text string)]. *)
Definition WriteMarkdownBlock (sb text : string) : string :=
  WriteCodeBlock sb "markdown" text.

(** [func MarkdownBlock(text string) string]. *)
Definition MarkdownBlock (text : string) : string :=
  WriteMarkdownBlock EmptyString text.

(** ** Documents used below *)

(** The double-quote byte (34). *)
Definition DQ : string := String (ascii_of_nat 34) EmptyString.

(** The lines of a document, joined by newlines. *)
Definition doc (lines : list string) : string := Join lines NL.

(** The nested-fence example: a spoiler that holds one [go] code block. *)
Definition nested_example : string :=
  doc ["```spoiler Code Example";
       "```go";
       "fmt.Println(" ++ DQ ++ "Hello" ++ DQ ++ ")";
       "```";
       "```"].

(** The same document with the inner pair of fences turned into tildes. *)
Definition nested_example_rewritten : string :=
  doc ["```spoiler Code Example";
       "~~~go";
       "fmt.Println(" ++ DQ ++ "Hello" ++ DQ ++ ")";
       "~~~";
       "```"].

(** The checks on the first and on the last line that
    [processSpoilerContent] makes before its loop: [true] when neither of
    its two early [return spoilerBlock, false] is taken. *)
Definition spoilerShape (spoilerBlock : string) : bool :=
  let lines := Split (TrimSpace spoilerBlock) nl in
  HasPrefix (hd EmptyString lines) "```spoiler"
  && (2 <=? len lines)
  && String.eqb (last lines EmptyString) "```".

(** In the words of the description of [Spoiler]: [tildes text t] when [t]
    is [text] with every fence token, met from left to right, replaced by
    three tildes and every other byte kept. *)
Inductive tildes : string -> string -> Prop :=
| tildes_end : tildes EmptyString EmptyString
| tildes_fence (s t : string) :
    tildes s t -> tildes ("```" ++ s) ("~~~" ++ t)
| tildes_byte (c : ascii) (s t : string) :
    HasPrefix (String c s) "```" = false ->
    tildes s t -> tildes (String c s) (String c t).

(** Each of [lines] followed by a newline. *)
Fixpoint eachLine (lines : list string) : string :=
  match lines with
  | [] => EmptyString
  | l :: ls => l ++ NL ++ eachLine ls
  end.

(** [s] holds the byte [c]. *)
Fixpoint hasByte (c : ascii) (s : string) : bool :=
  match s with
  | EmptyString => false
  | String x s' => Ascii.eqb x c || hasByte c s'
  end.

(** The trimmed form of [line] starts with the fence token. *)
Definition fenceLine (line : string) : bool :=
  HasPrefix (TrimSpace line) "```".

(** The loop of [processSpoilerContent] over the interior lines [body],
    without the indexing. *)
Definition nestedLines (spoilerBlock : string) (body : list string)
    (s : nested) : flow nested :=
  rangeLoop 0 body (fun _ line => nestedLine spoilerBlock line) s.

(** What the loop of [_EscapeMarkdown] writes for [lines] when each of them
    is written as it is, the first of them having index [i]. *)
Fixpoint emitted (numLines i : Z) (lines : list string) : string :=
  match lines with
  | [] => EmptyString
  | l :: ls => withNewline numLines i l ++ emitted numLines (i + 1) ls
  end.

(** The scan is [Outside]: in no spoiler and in no top-level code block. *)
Definition outside (s : scan) : Prop :=
  inSpoiler s = false /\ inTopLevelCode s = false.

(** The loop of [_EscapeMarkdown] on the input [markdown], stopped after the
    lines [pre] (a prefix of the lines of [markdown]). *)
Definition scanPrefix (markdown : string) (pre : list string) : flow scan :=
  rangeLoop 0 pre (scanBody markdown (len (Split markdown nl))) scan0.

(** A statement that does not panic and whose only [return] is the
    failure pair [(input, false)]. *)
Definition failsafe {A : Type} (input : string) (m : flow A) : Prop :=
  (exists a, m = Next a) \/ m = Return (input, false).

(** ** Loops without [return]

    [for i, x := range xs { body }] and [for i := lo; i < hi; i++ { body }]
    over a loop state of type [S], for bodies that only update the state, and
    for bodies that may panic ([None]). *)

Fixpoint rangeFold {A S : Type} (i : Z) (xs : list A)
    (body : Z -> A -> S -> S) (s : S) : S :=
  match xs with
  | [] => s
  | x :: xs' => rangeFold (i + 1) xs' body (body i x s)
  end.

Fixpoint countFold {S : Type} (count : nat) (i : Z) (body : Z -> S -> S)
    (s : S) : S :=
  match count with
  | O => s
  | Datatypes.S k => countFold k (i + 1) body (body i s)
  end.

Definition forFold {S : Type} (lo hi : Z) (body : Z -> S -> S) (s : S) : S :=
  countFold (Z.to_nat (hi - lo)) lo body s.

Fixpoint rangeOpt {A S : Type} (i : Z) (xs : list A)
    (body : Z -> A -> S -> option S) (s : S) : option S :=
  match xs with
  | [] => Some s
  | x :: xs' =>
      match body i x s with
      | Some s' => rangeOpt (i + 1) xs' body s'
      | None => None
      end
  end.

(** ** The formatting helpers

    [fmt.Sprintf] with a constant format whose verbs are all [%s] and with
    string operands is the concatenation of the pieces. *)

(** [func Bold(text string) string]. *)
Definition Bold (text : string) : string := "**" ++ text ++ "**".

(** [func Heading(level int, text string) string]; [None] stands for a
    panic of [strings.Repeat]. *)
Definition Heading (level : Z) (text : string) : option string :=
  let level := if (level <? 1) || (6 <? level) then 1 else level in
  match Repeat "#" level with
  | None => None
  | Some hashes => Some (hashes ++ " " ++ text)
  end.

(** [func QuoteBlock(text string) string]; [None] stands for a panic of the
    assignment [quotedLines[i] = ...]. *)
Definition QuoteBlock (text : string) : option string :=
  let lines := Split text nl in
  let quotedLines := make (len lines) in
  match rangeOpt 0 lines
          (fun i line quotedLines => store quotedLines i ("> " ++ line))
          quotedLines with
  | None => None
  | Some quotedLines => Some (Join quotedLines NL ++ NL)
  end.

(** [func QuoteBlocknl(text string) string]. *)
Definition QuoteBlocknl (text : string) : option string :=
  match QuoteBlock text with
  | None => None
  | Some q => Some (q ++ NL)
  end.

(** [func ListItem(text string, level int) string]; [None] stands for a
    panic of [strings.Repeat]. *)
Definition ListItem (text : string) (level : Z) : option string :=
  match Repeat "  " level with
  | None => None
  | Some indent => Some (indent ++ "- " ++ text)
  end.

(** [func ChecklistItem(text string, checked bool, level int) string]. *)
Definition ChecklistItem (text : string) (checked : bool) (level : Z)
  : option string :=
  match Repeat "  " level with
  | None => None
  | Some indent =>
      let checkmark := "[ ]" in
      let checkmark := if checked then "[x]" else checkmark in
      Some (indent ++ "- " ++ checkmark ++ " " ++ text)
  end.

(** [func KeyValue(key string, value string) string]. *)
Definition KeyValue (key value : string) : string :=
  Bold key ++ ": " ++ value.

(** [func SpoilerEscapedFence(heading string, text string) string]. *)
Definition SpoilerEscapedFence (heading text : string) : string :=
  SpoilerEscaped heading text "```".

(** [func SpoilerEscapedTilde(heading string, text string) string]. *)
Definition SpoilerEscapedTilde (heading text : string) : string :=
  SpoilerEscaped heading text "~~~".

(** ** The table builder *)

(** [type Alignment string] and its constants. *)
Definition Alignment : Type := string.
Definition AlignDefault : Alignment := EmptyString.
Definition AlignLeft : Alignment := "left".
Definition AlignCenter : Alignment := "center".
Definition AlignRight : Alignment := "right".

(** [type TableBuilder struct].  The methods change the builder they are
    called on and return it: here they take the builder and return the
    changed one. *)
Record TableBuilder : Type := mkTable {
  headers : list string;
  rows : list (list string);
  alignments : list Alignment;
  headerBuilder : string -> string
}.

(** [func NewTableBuilder() *TableBuilder]. *)
Definition NewTableBuilder : TableBuilder :=
  mkTable [] [] [] (fun s => s).

(** [func (t *TableBuilder) WithHeaders(headers ...string) *TableBuilder]. *)
Definition WithHeaders (t : TableBuilder) (hs : list string) : TableBuilder :=
  let headers' := (headers t ++ hs)%list in
  let alignments' :=
    forFold (len (alignments t)) (len headers')
            (fun _ al => (al ++ [AlignDefault])%list) (alignments t) in
  mkTable headers' (rows t) alignments' (headerBuilder t).

(** [func (t *TableBuilder) WithHeaderStyle(styleFunc func(string) string)
    *TableBuilder]. *)
Definition WithHeaderStyle (t : TableBuilder) (styleFunc : string -> string)
  : TableBuilder :=
  mkTable (headers t) (rows t) (alignments t) styleFunc.

(** [func (t *TableBuilder) WithBoldHeaders() *TableBuilder]. *)
Definition WithBoldHeaders (t : TableBuilder) : TableBuilder :=
  WithHeaderStyle t (fun s => "**" ++ s ++ "**").

(** [func (t *TableBuilder) AddRow(cells ...string) *TableBuilder]. *)
Definition AddRow (t : TableBuilder) (cells : list string) : TableBuilder :=
  let row := cells in
  mkTable (headers t) (rows t ++ [row])%list (alignments t) (headerBuilder t).

(** [func (t *TableBuilder) AddRows(rows [][]string) *TableBuilder]. *)
Definition AddRows (t : TableBuilder) (rs : list (list string))
  : TableBuilder :=
  rangeFold 0 rs (fun _ row t => AddRow t row) t.

(** [func (t *TableBuilder) SetAlignment(column int, alignment Alignment)
    *TableBuilder]; [None] stands for a panic of the assignment. *)
Definition SetAlignment (t : TableBuilder) (column : Z)
    (alignment : Alignment) : option TableBuilder :=
  if (0 <=? column) && (column <? len (alignments t)) then
    match store (alignments t) column alignment with
    | None => None
    | Some al => Some (mkTable (headers t) (rows t) al (headerBuilder t))
    end
  else Some t.

(** [func (t *TableBuilder) SetAlignments(alignments ...Alignment)
    *TableBuilder]. *)
Definition SetAlignments (t : TableBuilder) (als : list Alignment)
  : option TableBuilder :=
  rangeOpt 0 als
    (fun i alignment t =>
       if i <? len (alignments t) then
         match store (alignments t) i alignment with
         | None => None
         | Some al => Some (mkTable (headers t) (rows t) al (headerBuilder t))
         end
       else Some t)
    t.

(** The [switch alignment] of [Build]. *)
Definition alignmentMarker (alignment : Alignment) : string :=
  if String.eqb alignment AlignLeft then ":---"
  else if String.eqb alignment AlignCenter then ":---:"
  else if String.eqb alignment AlignRight then "---:"
  else "---".

(** The body of [for _, row := range t.rows] in [Build]. *)
Definition Build_row (hs : list string) (row : list string) (sb : string)
  : string :=
  let sb := sb ++ "| " in
  let sb :=
    rangeFold 0 row
      (fun i cell sb =>
         let sb := if 0 <? i then sb ++ " | " else sb in
         if i <? len hs then sb ++ cell else sb)
      sb in
  let sb := forFold (len row) (len hs) (fun _ sb => sb ++ " | ") sb in
  sb ++ (" |" ++ NL).

(** [func (t *TableBuilder) Build() string]. *)
Definition Build (t : TableBuilder) : string :=
  if len (headers t) =? 0 then EmptyString else
  let sb := EmptyString in
  let sb := sb ++ "| " in
  let sb :=
    rangeFold 0 (headers t)
      (fun i header sb =>
         let sb := if 0 <? i then sb ++ " | " else sb in
         sb ++ headerBuilder t header)
      sb in
  let sb := sb ++ (" |" ++ NL) in
  let sb := sb ++ "| " in
  let sb :=
    rangeFold 0 (alignments t)
      (fun i alignment sb =>
         let sb := if 0 <? i then sb ++ " | " else sb in
         sb ++ alignmentMarker alignment)
      sb in
  let sb := sb ++ (" |" ++ NL) in
  rangeFold 0 (rows t) (fun _ row sb => Build_row (headers t) row sb) sb.

(** ** Sections *)

(** [type Section struct]. *)
Record Section : Type := mkSection {
  Level : Z;
  Title : string;
  Content : list string
}.

(** [func NewSection(level int, title string) *Section]. *)
Definition NewSection (level : Z) (title : string) : Section :=
  let level := if level <? 1 then 1 else if 6 <? level then 6 else level in
  mkSection level title [].

(** [func (s *Section) AddBullet(text string) *Section]. *)
Definition AddBullet (s : Section) (text : string) : Section :=
  mkSection (Level s) (Title s) (Content s ++ [("* " ++ text)%string])%list.

(** [func (s *Section) AddText(text string) *Section]. *)
Definition AddText (s : Section) (text : string) : Section :=
  mkSection (Level s) (Title s) (Content s ++ [text])%list.

(** [func (s *Section) AddTable(table *TableBuilder) *Section]. *)
Definition AddTable (s : Section) (table : TableBuilder) : Section :=
  mkSection (Level s) (Title s) (Content s ++ [Build table])%list.

(** [func (s *Section) Build() string]. *)
Definition Section_Build (s : Section) : string :=
  let sb := EmptyString in
  let sb := forFold 0 (Level s) (fun _ sb => sb ++ "#") sb in
  let sb := sb ++ " " in
  let sb := sb ++ Title s in
  let sb := sb ++ (NL ++ NL) in
  let sb :=
    rangeFold 0 (Content s) (fun _ item sb => (sb ++ item) ++ NL) sb in
  sb ++ NL.

(** ** The message shortcuts *)

(** [func Warnf(info *strings.Builder, format string, args ...interface{})]
    for a message that is already formatted: [message] stands for
    [fmt.Sprintf(format, args...)]. *)
Definition Warnf (info message : string) : string :=
  info ++ ("⚠️ " ++ message ++ NL).

(** [func Usage(info *strings.Builder, alias string, opts ...string)];
    [None] stands for a panic of the assignment [formattedOpts[i] = ...]. *)
Definition Usage (info alias : string) (opts : list string) : option string :=
  let optStr := EmptyString in
  match
    (if 0 <? len opts then
       let formattedOpts := make (len opts) in
       match rangeOpt 0 opts
               (fun i opt formattedOpts =>
                  store formattedOpts i ("[" ++ opt ++ "]"))
               formattedOpts with
       | None => None
       | Some formattedOpts => Some (" " ++ Join formattedOpts " ")
       end
     else Some optStr)
  with
  | None => None
  | Some optStr => Some (Warnf info ("Usage: `" ++ alias ++ optStr ++ "`."))
  end.

(** ** Notions used in the statements *)

(** The two locals of the loop of [processSpoilerContent] agree:
    [fenceBalance] is 1 inside a nested block and 0 outside. *)
Definition balanced (s : nested) : Prop :=
  (inNestedCode s = false /\ fenceBalance s = 0)
  \/ (inNestedCode s = true /\ fenceBalance s = 1).

(** One line of a table: the cells between bars. *)
Definition tableLine (cells : list string) : string :=
  "| " ++ Join cells " | " ++ " |" ++ NL.

(** The strings of a list, one after the other. *)
Fixpoint concatAll (xs : list string) : string :=
  match xs with
  | [] => EmptyString
  | x :: xs' => x ++ concatAll xs'
  end.

(** The cells of a row as [Build] writes them, the first of them having
    index [i]: a cell beyond the headers is written as an empty cell. *)
Fixpoint cellsFrom (numHeaders i : Z) (row : list string) : list string :=
  match row with
  | [] => []
  | cell :: row' =>
      (if i <? numHeaders then cell else EmptyString)
      :: cellsFrom numHeaders (i + 1) row'
  end.

(** The builder keeps one alignment for each header. *)
Definition aligned (t : TableBuilder) : Prop :=
  List.length (alignments t) = List.length (headers t).

(** ** Strings *)

Lemma append_nil_r (s : string) : s ++ EmptyString = s.
Proof. induction s as [|c s IH]; simpl; [reflexivity | now rewrite IH]. Qed.

Lemma append_assoc (a b c : string) : (a ++ b) ++ c = a ++ (b ++ c).
Proof. induction a as [|x a IH]; simpl; [reflexivity | now rewrite IH]. Qed.

Lemma HasPrefix_append (p q s : string) :
  HasPrefix s (p ++ q) = true -> HasPrefix s p = true.
Proof.
  unfold HasPrefix. revert s.
  induction p as [|a p IH]; intros s H.
  - destruct s; reflexivity.
  - destruct s as [|b s]; simpl in *; [discriminate|].
    destruct (ascii_dec a b); [now apply IH | discriminate].
Qed.

Lemma not_fence_not_spoiler (t : string) :
  HasPrefix t "```" = false -> HasPrefix t "```spoiler" = false.
Proof.
  intros H. destruct (HasPrefix t "```spoiler") eqn:E; [|reflexivity].
  apply (HasPrefix_append "```" "spoiler") in E. congruence.
Qed.

(** ** Slices: [len], indexing, [Split] and [Join] *)

Lemma len_nonneg {A : Type} (xs : list A) : 0 <= len xs.
Proof. unfold len. lia. Qed.

Lemma len_cons {A : Type} (x : A) (xs : list A) : len (x :: xs) = 1 + len xs.
Proof. unfold len. simpl List.length. lia. Qed.

Lemma len_app {A : Type} (xs ys : list A) : len (xs ++ ys) = len xs + len ys.
Proof. unfold len. rewrite length_app. lia. Qed.

Lemma index_in_range (xs : list string) (i : Z) :
  0 <= i < len xs -> exists x, index xs i = Next x /\ In x xs.
Proof.
  intros Hi. unfold index.
  replace ((i <? 0) || (len xs <=? i)) with false
    by (symmetry; apply orb_false_iff; split; [apply Z.ltb_ge | apply Z.leb_gt]; lia).
  destruct (nth_error xs (Z.to_nat i)) as [x|] eqn:E.
  - exists x. split; [reflexivity | eapply nth_error_In; eassumption].
  - apply nth_error_None in E. unfold len in Hi. lia.
Qed.

Lemma Split_not_nil (s : string) (sep : ascii) : Split s sep <> [].
Proof.
  destruct s as [|c s]; simpl; [discriminate|].
  destruct (Ascii.eqb c sep); [discriminate|].
  destruct (Split s sep); discriminate.
Qed.

Lemma Join_Split (s : string) : Join (Split s nl) NL = s.
Proof.
  induction s as [|c s IH]; [reflexivity|].
  simpl Split. destruct (Ascii.eqb c nl) eqn:E.
  - apply Ascii.eqb_eq in E. subst c.
    pose proof (Split_not_nil s nl) as Hne.
    destruct (Split s nl) as [|l ls]; [contradiction|].
    change (Join (EmptyString :: l :: ls) NL)
      with (EmptyString ++ NL ++ Join (l :: ls) NL).
    rewrite IH. reflexivity.
  - pose proof (Split_not_nil s nl) as Hne.
    destruct (Split s nl) as [|l ls]; [contradiction|].
    destruct ls as [|l' ls].
    + simpl in *. now rewrite IH.
    + change (Join (String c l :: l' :: ls) NL)
        with (String c (l ++ NL ++ Join (l' :: ls) NL)).
      change (Join (l :: l' :: ls) NL) with (l ++ NL ++ Join (l' :: ls) NL) in IH.
      now rewrite IH.
Qed.

Lemma Join_cons (x : string) (xs : list string) (sep : string) :
  xs <> [] -> Join (x :: xs) sep = x ++ sep ++ Join xs sep.
Proof. destruct xs; [contradiction | reflexivity]. Qed.

(** ** Control flow *)

Lemma rangeLoop_app {S : Type} (xs ys : list string)
    (body : Z -> string -> S -> flow S) :
  forall (i : Z) (s : S),
    rangeLoop i (xs ++ ys) body s =
    (s' <- rangeLoop i xs body s ;; rangeLoop (i + len xs) ys body s').
Proof.
  induction xs as [|x xs IH]; intros i s.
  - simpl. now rewrite Z.add_0_r.
  - simpl app. simpl rangeLoop. destruct (body i x s) as [s1| |]; simpl;
      [|reflexivity|reflexivity].
    rewrite IH, len_cons.
    now replace (i + 1 + len xs) with (i + (1 + len xs)) by lia.
Qed.

Lemma failsafe_bind {A B : Type} (input : string) (m : flow A)
    (k : A -> flow B) :
  failsafe input m -> (forall a, m = Next a -> failsafe input (k a)) ->
  failsafe input (x <- m ;; k x).
Proof.
  intros [[a Ha]|Hr] Hk.
  - rewrite Ha. simpl. now apply Hk.
  - rewrite Hr. right. reflexivity.
Qed.

(** ** [processSpoilerContent] returns *)

Lemma nestedBody_failsafe (block : string) (lines : list string) (i : Z)
    (s : nested) :
  0 <= i < len lines -> failsafe block (nestedBody block lines i s).
Proof.
  intros Hi. unfold nestedBody.
  destruct (index_in_range lines i Hi) as [line [Hline _]].
  rewrite Hline. cbn [flow_bind]. unfold nestedLine.
  destruct (inNestedCode s); simpl negb; cbv iota.
  - destruct (String.eqb (TrimSpace line) "```").
    + destruct (fenceBalance s =? 1); simpl; [left; eauto | right; reflexivity].
    + left; simpl; eauto.
  - destruct (HasPrefix (TrimSpace line) "```").
    + destruct (fenceBalance s =? 0); simpl; [left; eauto | right; reflexivity].
    + left; simpl; eauto.
Qed.

Lemma forCount_nested_failsafe (block : string) (lines : list string) :
  forall (k : nat) (i : Z) (s : nested),
    0 <= i -> i + Z.of_nat k <= len lines ->
    failsafe block (forCount k i (nestedBody block lines) s).
Proof.
  induction k as [|k IH]; intros i s Hlo Hhi.
  - left. simpl. eauto.
  - simpl forCount. apply failsafe_bind.
    + apply nestedBody_failsafe. lia.
    + intros s' _. apply IH; lia.
Qed.

Lemma processSpoilerContent_returns (block : string) :
  exists t ok, processSpoilerContent block = Some (t, ok)
               /\ (ok = false -> t = block).
Proof.
  unfold processSpoilerContent, processSpoilerContent_body.
  destruct (String.eqb (TrimSpace block) EmptyString).
  { exists EmptyString, true. split; [reflexivity | discriminate]. }
  set (lines := Split (TrimSpace block) nl).
  assert (Hlen : 1 <= len lines).
  { pose proof (Split_not_nil (TrimSpace block) nl) as Hne. fold lines in Hne.
    destruct lines; [contradiction|]. rewrite len_cons.
    pose proof (len_nonneg lines). lia. }
  replace (len lines =? 0) with false by (symmetry; apply Z.eqb_neq; lia).
  destruct (index_in_range lines 0 ltac:(lia)) as [l0 [Hl0 _]].
  rewrite Hl0. simpl flow_bind.
  destruct (HasPrefix l0 "```spoiler"); simpl negb; cbv iota;
    [|exists block, false; split; [reflexivity | reflexivity]].
  destruct (len lines <? 2) eqn:Hlt; simpl flow_bind; cbv iota;
    [exists block, false; split; reflexivity|].
  apply Z.ltb_ge in Hlt.
  destruct (index_in_range lines (len lines - 1) ltac:(lia)) as [ll [Hll _]].
  rewrite Hll. simpl flow_bind.
  destruct (String.eqb ll "```"); simpl negb; cbv iota;
    [|exists block, false; split; reflexivity].
  unfold forRange.
  destruct (forCount_nested_failsafe block lines
              (Z.to_nat (len lines - 1 - 1)) 1 (mkNested (l0 ++ NL) false 0)
              ltac:(lia) ltac:(lia)) as [[s Hs]|Hr].
  - rewrite Hs. simpl flow_bind.
    destruct (inNestedCode s || negb (fenceBalance s =? 0)); simpl.
    + exists block, false. split; reflexivity.
    + exists (nresult s ++ ll), true. split; [reflexivity | discriminate].
  - rewrite Hr. exists block, false. split; reflexivity.
Qed.

(** ** [_EscapeMarkdown] returns, and returns its input when it fails *)

Lemma scanBody_failsafe (markdown : string) (numLines i : Z) (line : string)
    (s : scan) :
  failsafe markdown (scanBody markdown numLines i line s).
Proof.
  unfold scanBody.
  destruct (inSpoiler s).
  - destruct (String.eqb (TrimSpace line) "```"); [|left; eauto].
    destruct (processSpoilerContent_returns
                (spoilerContent s ++ withNewline numLines i line))
      as [t [ok [Hp _]]].
    rewrite Hp. destruct ok; simpl; [left; eauto | right; reflexivity].
  - destruct (inTopLevelCode s).
    + destruct (String.eqb (TrimSpace line) "```"); left; eauto.
    + destruct (HasPrefix (TrimSpace line) "```spoiler"); [left; eauto|].
      destruct (HasPrefix (TrimSpace line) "```"); left; eauto.
Qed.

Lemma rangeLoop_failsafe (markdown : string) (numLines : Z) :
  forall (lines : list string) (i : Z) (s : scan),
    failsafe markdown (rangeLoop i lines (scanBody markdown numLines) s).
Proof.
  induction lines as [|l lines IH]; intros i s.
  - left. simpl. eauto.
  - simpl rangeLoop. apply failsafe_bind.
    + apply scanBody_failsafe.
    + intros s' _. apply IH.
Qed.

Lemma scanLines_failsafe (markdown : string) :
  failsafe markdown (scanLines markdown).
Proof. apply rangeLoop_failsafe. Qed.

(** The result of [_EscapeMarkdown] in terms of the state the loop ends in. *)
Lemma _EscapeMarkdown_cases (d : string) :
  (exists s, scanLines d = Next s
             /\ _EscapeMarkdown d =
                Some (if inSpoiler s || inTopLevelCode s then (d, false)
                      else (result s, true)))
  \/ (scanLines d = Return (d, false) /\ _EscapeMarkdown d = Some (d, false)).
Proof.
  unfold _EscapeMarkdown, _EscapeMarkdown_body.
  destruct (scanLines_failsafe d) as [[s Hs]|Hr].
  - left. exists s. split; [assumption|]. rewrite Hs. simpl.
    now destruct (inSpoiler s || inTopLevelCode s).
  - right. rewrite Hr. split; reflexivity.
Qed.

(** C2 (identity on failure).  [_EscapeMarkdown] returns on every input (no
    index is ever out of range, so it never panics), and whenever the flag it
    returns is [false] the text it returns is the input itself. *)
Theorem escape_failure_returns_input (d : string) :
  (exists t ok, _EscapeMarkdown d = Some (t, ok))
  /\ (forall t, _EscapeMarkdown d = Some (t, false) -> t = d).
Proof.
  destruct (_EscapeMarkdown_cases d) as [[s [_ H]]|[_ H]]; rewrite H.
  - destruct (inSpoiler s || inTopLevelCode s).
    + split; [eauto | intros t Ht; congruence].
    + split; [eauto | intros t Ht; discriminate].
  - split; [eauto | intros t Ht; congruence].
Qed.

(** An unclosed top-level code block: the flag is [false] and the text is the
    input. *)
Lemma escape_failure_returns_input_witness :
  _EscapeMarkdown "```go" = Some ("```go", false)
  /\ "```go" = "```go".
Proof.
  split; [reflexivity|].
  symmetry. apply (proj2 (escape_failure_returns_input "```go")). reflexivity.
Defined.

(** ** Lines written as they are *)

Lemma withNewline_last (numLines i : Z) (line : string) :
  numLines - 1 <= i -> withNewline numLines i line = line.
Proof.
  intros H. unfold withNewline.
  now replace (i <? numLines - 1) with false by (symmetry; apply Z.ltb_ge; lia).
Qed.

Lemma withNewline_inner (numLines i : Z) (line : string) :
  i < numLines - 1 -> withNewline numLines i line = line ++ NL.
Proof.
  intros H. unfold withNewline.
  now replace (i <? numLines - 1) with true by (symmetry; apply Z.ltb_lt; lia).
Qed.

Lemma emitted_app (numLines : Z) (xs ys : list string) :
  forall i, emitted numLines i (xs ++ ys) =
            emitted numLines i xs ++ emitted numLines (i + len xs) ys.
Proof.
  induction xs as [|x xs IH]; intros i.
  - simpl. now rewrite Z.add_0_r.
  - simpl. rewrite IH, len_cons, append_assoc.
    now replace (i + 1 + len xs) with (i + (1 + len xs)) by lia.
Qed.

(** Up to the last line of the input, the lines written are the lines joined
    by newlines. *)
Lemma emitted_Join (lines : list string) :
  forall i, lines <> [] -> emitted (i + len lines) i lines = Join lines NL.
Proof.
  induction lines as [|l lines IH]; intros i Hne; [contradiction|].
  destruct lines as [|l' lines].
  - simpl. rewrite withNewline_last, append_nil_r; [reflexivity|].
    rewrite len_cons. unfold len; simpl. lia.
  - rewrite Join_cons by discriminate.
    change (emitted (i + len (l :: l' :: lines)) i (l :: l' :: lines))
      with (withNewline (i + len (l :: l' :: lines)) i l
            ++ emitted (i + len (l :: l' :: lines)) (i + 1) (l' :: lines)).
    rewrite withNewline_inner.
    + rewrite append_assoc. do 2 f_equal.
      rewrite <- (IH (i + 1)) by discriminate.
      f_equal. rewrite (len_cons l). lia.
    + rewrite !len_cons. pose proof (len_nonneg lines). lia.
Qed.

(** Before the last line of the input, each line written is followed by a
    newline. *)
Lemma emitted_inner (numLines : Z) (lines : list string) :
  forall i, i + len lines < numLines ->
            emitted numLines i lines = Join lines NL ++
              match lines with [] => EmptyString | _ => NL end.
Proof.
  induction lines as [|l lines IH]; intros i Hi; [reflexivity|].
  rewrite len_cons in Hi. pose proof (len_nonneg lines).
  simpl emitted. rewrite withNewline_inner by lia.
  rewrite IH by lia.
  destruct lines as [|l' lines].
  - simpl. now rewrite append_nil_r.
  - rewrite (Join_cons l) by discriminate. now rewrite !append_assoc.
Qed.

Lemma scanBody_plain (md : string) (numLines i : Z) (line : string)
    (s : scan) :
  outside s -> HasPrefix (TrimSpace line) "```" = false ->
  scanBody md numLines i line s =
  Next (mkScan (result s ++ withNewline numLines i line) (spoilerContent s)
               false false).
Proof.
  intros [Hs Ht] Hp. unfold scanBody.
  rewrite Hs, Ht, (not_fence_not_spoiler _ Hp), Hp. reflexivity.
Qed.

Lemma rangeLoop_plain (md : string) (numLines : Z) :
  forall (lines : list string) (i : Z) (s : scan),
    outside s ->
    (forall l, In l lines -> HasPrefix (TrimSpace l) "```" = false) ->
    rangeLoop i lines (scanBody md numLines) s =
    Next (mkScan (result s ++ emitted numLines i lines) (spoilerContent s)
                 false false).
Proof.
  induction lines as [|l lines IH]; intros i s Hout Hplain.
  - destruct Hout as [Hs Ht]. destruct s as [r c sp tl]. simpl in *. subst.
    now rewrite append_nil_r.
  - simpl rangeLoop. rewrite scanBody_plain; [|assumption|apply Hplain; now left].
    simpl flow_bind. rewrite IH.
    + simpl. now rewrite append_assoc.
    + split; reflexivity.
    + intros x Hx. apply Hplain. now right.
Qed.

(** C7 (no-op on plain text).  When no line of the input has a trimmed form
    that starts with the fence token, [_EscapeMarkdown] returns the input
    itself with the flag [true]. *)
Theorem escape_plain_text_noop (d : string) :
  (forall l, In l (Split d nl) -> HasPrefix (TrimSpace l) "```" = false) ->
  _EscapeMarkdown d = Some (d, true).
Proof.
  intros Hplain.
  unfold _EscapeMarkdown, _EscapeMarkdown_body, scanLines.
  rewrite rangeLoop_plain; [|split; reflexivity|assumption].
  simpl. do 2 f_equal.
  change (len (Split d nl)) with (0 + len (Split d nl)).
  rewrite emitted_Join by apply Split_not_nil.
  apply Join_Split.
Qed.

(** The empty input yields the empty text and the flag [true]. *)
Lemma escape_plain_text_noop_witness :
  _EscapeMarkdown EmptyString = Some (EmptyString, true).
Proof.
  apply (escape_plain_text_noop EmptyString).
  intros l [Hl|[]]. subst l. reflexivity.
Defined.

(** ** Fences that are opened at the top level *)

Lemma scanBody_open_spoiler (md : string) (numLines i : Z) (line : string)
    (s : scan) :
  outside s -> HasPrefix (TrimSpace line) "```spoiler" = true ->
  scanBody md numLines i line s =
  Next (mkScan (result s) (withNewline numLines i line) true false).
Proof.
  intros [Hs Ht] Hp. unfold scanBody. now rewrite Hs, Ht, Hp.
Qed.

Lemma scanBody_open_code (md : string) (numLines i : Z) (line : string)
    (s : scan) :
  outside s ->
  HasPrefix (TrimSpace line) "```spoiler" = false ->
  HasPrefix (TrimSpace line) "```" = true ->
  scanBody md numLines i line s =
  Next (mkScan (result s ++ withNewline numLines i line) (spoilerContent s)
               false true).
Proof.
  intros [Hs Ht] Hp Hq. unfold scanBody. now rewrite Hs, Ht, Hp, Hq.
Qed.

Lemma scanBody_spoiler_stays (md : string) (numLines i : Z) (line : string)
    (s : scan) :
  inSpoiler s = true -> TrimSpace line <> "```" ->
  scanBody md numLines i line s =
  Next (mkScan (result s) (spoilerContent s ++ withNewline numLines i line)
               true (inTopLevelCode s)).
Proof.
  intros Hs Hn. unfold scanBody. rewrite Hs.
  apply String.eqb_neq in Hn. now rewrite Hn.
Qed.

Lemma scanBody_code_stays (md : string) (numLines i : Z) (line : string)
    (s : scan) :
  inSpoiler s = false -> inTopLevelCode s = true -> TrimSpace line <> "```" ->
  scanBody md numLines i line s =
  Next (mkScan (result s ++ withNewline numLines i line) (spoilerContent s)
               false true).
Proof.
  intros Hs Ht Hn. unfold scanBody. rewrite Hs, Ht.
  apply String.eqb_neq in Hn. now rewrite Hn.
Qed.

Lemma scanBody_code_closes (md : string) (numLines i : Z) (line : string)
    (s : scan) :
  inSpoiler s = false -> inTopLevelCode s = true -> TrimSpace line = "```" ->
  scanBody md numLines i line s =
  Next (mkScan (result s ++ withNewline numLines i line) (spoilerContent s)
               false false).
Proof.
  intros Hs Ht Hn. unfold scanBody. now rewrite Hs, Ht, Hn.
Qed.

(** Inside a spoiler, lines that are not the bare fence leave the scan
    inside the spoiler and write nothing. *)
Lemma rangeLoop_spoiler_stays (md : string) (numLines : Z) :
  forall (lines : list string) (i : Z) (s : scan),
    inSpoiler s = true ->
    (forall l, In l lines -> TrimSpace l <> "```") ->
    exists s', rangeLoop i lines (scanBody md numLines) s = Next s'
               /\ inSpoiler s' = true /\ result s' = result s.
Proof.
  induction lines as [|l lines IH]; intros i s Hs Hn.
  - exists s. simpl. auto.
  - simpl rangeLoop. rewrite scanBody_spoiler_stays by (auto; apply Hn; now left).
    simpl flow_bind.
    destruct (IH (i + 1)
                (mkScan (result s)
                        (spoilerContent s ++ withNewline numLines i l)
                        true (inTopLevelCode s)) eq_refl)
      as [s' [Hs' [Hin Hres]]]; [intros x Hx; apply Hn; now right|].
    exists s'. rewrite Hs'. auto.
Qed.

(** Inside a top-level code block, lines that are not the bare fence are
    written as they are and leave the scan inside the block, whatever they
    contain. *)
Lemma rangeLoop_code_stays (md : string) (numLines : Z) :
  forall (lines : list string) (i : Z) (s : scan),
    inSpoiler s = false -> inTopLevelCode s = true ->
    (forall l, In l lines -> TrimSpace l <> "```") ->
    rangeLoop i lines (scanBody md numLines) s =
    Next (mkScan (result s ++ emitted numLines i lines) (spoilerContent s)
                 false true).
Proof.
  induction lines as [|l lines IH]; intros i s Hs Ht Hn.
  - destruct s as [r c sp tl]. simpl in *. subst. now rewrite append_nil_r.
  - simpl rangeLoop.
    rewrite scanBody_code_stays by (auto; apply Hn; now left).
    simpl flow_bind. rewrite IH; [|reflexivity|reflexivity|].
    + simpl. now rewrite append_assoc.
    + intros x Hx. apply Hn. now right.
Qed.

Lemma scanLines_prefix (d : string) : scanLines d = scanPrefix d (Split d nl).
Proof. reflexivity. Qed.

Lemma scanPrefix_app (d : string) (pre rest : list string) :
  scanPrefix d (pre ++ rest) =
  (s <- scanPrefix d pre ;;
   rangeLoop (len pre) rest (scanBody d (len (Split d nl))) s).
Proof. unfold scanPrefix. now rewrite rangeLoop_app. Qed.

(** [_EscapeMarkdown] succeeds exactly when the scan reaches the end of the
    input [Outside]; its text is then what the scan has written. *)
Lemma escape_ok_iff_outside (d t : string) :
  _EscapeMarkdown d = Some (t, true) <->
  exists s, scanLines d = Next s /\ outside s /\ result s = t.
Proof.
  split.
  - intros H. destruct (_EscapeMarkdown_cases d) as [[s [Hs He]]|[_ He]];
      rewrite He in H; [|discriminate].
    exists s. split; [assumption|].
    unfold outside.
    destruct (inSpoiler s), (inTopLevelCode s); simpl in H;
      try discriminate. injection H as <-. auto.
  - intros [s [Hs [[Hsp Htl] Hr]]].
    unfold _EscapeMarkdown, _EscapeMarkdown_body.
    rewrite Hs. simpl. rewrite Hsp, Htl. simpl. now rewrite Hr.
Qed.

(** C6 (unclosed fences fail).  When the scan is [Outside] at a line whose
    trimmed form starts with the fence token (a spoiler opener or the opening
    fence of a top-level code block) and no later line is a bare fence, the
    scan ends inside that block and [_EscapeMarkdown] returns the input with
    the flag [false]; the flag is [true] exactly when the scan reaches the
    end of the input [Outside]. *)
Theorem escape_unclosed_fails (d : string) (pre rest : list string)
    (l : string) (s : scan) :
  Split d nl = (pre ++ l :: rest)%list ->
  scanPrefix d pre = Next s ->
  outside s ->
  HasPrefix (TrimSpace l) "```" = true ->
  (forall x, In x rest -> TrimSpace x <> "```") ->
  _EscapeMarkdown d = Some (d, false)
  /\ (exists s', scanLines d = Next s'
                 /\ (inSpoiler s' || inTopLevelCode s') = true)
  /\ (forall t, _EscapeMarkdown d = Some (t, true) <->
                exists s', scanLines d = Next s' /\ outside s'
                           /\ result s' = t).
Proof.
  intros Hsplit Hpre Hout Hfence Hrest.
  assert (Hend : exists s', scanLines d = Next s'
                            /\ (inSpoiler s' || inTopLevelCode s') = true).
  { rewrite scanLines_prefix, Hsplit, scanPrefix_app, Hpre.
    cbn [flow_bind].
    destruct (HasPrefix (TrimSpace l) "```spoiler") eqn:Hsp.
    - cbn [rangeLoop]. rewrite scanBody_open_spoiler by assumption.
      cbn [flow_bind].
      destruct (rangeLoop_spoiler_stays d (len (Split d nl)) rest
                  (len pre + 1)
                  (mkScan (result s)
                          (withNewline (len (Split d nl)) (len pre) l)
                          true false) eq_refl Hrest) as [s' [Hs' [Hin _]]].
      rewrite Hs'. exists s'. rewrite Hin. auto.
    - cbn [rangeLoop]. rewrite scanBody_open_code by assumption.
      cbn [flow_bind].
      rewrite rangeLoop_code_stays by (auto; reflexivity).
      eexists. split; reflexivity. }
  split; [|split; [exact Hend | intros t; apply escape_ok_iff_outside]].
  destruct Hend as [s' [Hs' Hflags]].
  unfold _EscapeMarkdown, _EscapeMarkdown_body.
  rewrite Hs'. simpl. now rewrite Hflags.
Qed.

(** A code block that is opened on the second line and never closed. *)
Lemma escape_unclosed_fails_witness :
  _EscapeMarkdown (doc ["a"; "```go"; "b"]) =
  Some (doc ["a"; "```go"; "b"], false).
Proof.
  apply (escape_unclosed_fails (doc ["a"; "```go"; "b"]) ["a"] ["b"] "```go"
           (mkScan ("a" ++ NL) EmptyString false false)).
  - reflexivity.
  - reflexivity.
  - split; reflexivity.
  - reflexivity.
  - intros x [Hx|[]]. subst x. vm_compute. discriminate.
Defined.

(** ** Top-level code blocks pass through *)

Lemma Join_app (xs ys : list string) (sep : string) :
  xs <> [] -> ys <> [] ->
  Join (xs ++ ys) sep = Join xs sep ++ sep ++ Join ys sep.
Proof.
  intros Hx Hy. induction xs as [|x xs IH]; [contradiction|].
  destruct xs as [|x' xs].
  - simpl app. now rewrite Join_cons.
  - change ((x :: x' :: xs) ++ ys)%list with (x :: (x' :: xs) ++ ys)%list.
    rewrite Join_cons by discriminate.
    rewrite IH by discriminate.
    rewrite (Join_cons x (x' :: xs)) by discriminate.
    now rewrite !append_assoc.
Qed.

(** A run of lines is a part of the lines joined. *)
Lemma Join_middle (pre mid post : list string) (sep : string) :
  mid <> [] ->
  exists a b, Join (pre ++ mid ++ post) sep = a ++ Join mid sep ++ b.
Proof.
  intros Hm.
  assert (Hright : exists b, Join (mid ++ post) sep = Join mid sep ++ b).
  { destruct post as [|p post].
    - exists EmptyString. now rewrite app_nil_r, append_nil_r.
    - exists (sep ++ Join (p :: post) sep). apply Join_app; [assumption|discriminate]. }
  destruct Hright as [b Hb].
  destruct pre as [|p pre].
  - exists EmptyString, b. exact Hb.
  - exists (Join (p :: pre) sep ++ sep), b.
    rewrite Join_app; [|discriminate|destruct mid; [contradiction|discriminate]].
    now rewrite Hb, !append_assoc.
Qed.

(** A non-empty run of lines written as they are: the lines joined by
    newlines, with one more newline unless the run ends the input. *)
Lemma emitted_block (numLines : Z) (lines : list string) (i : Z) :
  lines <> [] -> i + len lines <= numLines ->
  emitted numLines i lines =
  Join lines NL ++ (if i + len lines <? numLines then NL else EmptyString).
Proof.
  intros Hne Hle. destruct (i + len lines <? numLines) eqn:E.
  - apply Z.ltb_lt in E. rewrite emitted_inner by assumption.
    destruct lines; [contradiction | reflexivity].
  - apply Z.ltb_ge in E. replace numLines with (i + len lines) by lia.
    rewrite emitted_Join by assumption. now rewrite append_nil_r.
Qed.

(** The loop only ever appends to what it has written. *)
Lemma scanBody_result_extends (md : string) (numLines i : Z) (line : string)
    (s s' : scan) :
  scanBody md numLines i line s = Next s' ->
  exists x, result s' = result s ++ x.
Proof.
  unfold scanBody. intros H.
  destruct (inSpoiler s).
  - destruct (String.eqb (TrimSpace line) "```").
    + destruct (processSpoilerContent _) as [[p [|]]|]; simpl in H;
        try discriminate.
      injection H as <-. simpl. eauto.
    + injection H as <-. exists EmptyString. simpl. now rewrite append_nil_r.
  - destruct (inTopLevelCode s).
    + destruct (String.eqb (TrimSpace line) "```");
        injection H as <-; simpl; eauto.
    + destruct (HasPrefix (TrimSpace line) "```spoiler").
      * injection H as <-. exists EmptyString. simpl. now rewrite append_nil_r.
      * destruct (HasPrefix (TrimSpace line) "```");
          injection H as <-; simpl; eauto.
Qed.

Lemma rangeLoop_result_extends (md : string) (numLines : Z) :
  forall (lines : list string) (i : Z) (s s' : scan),
    rangeLoop i lines (scanBody md numLines) s = Next s' ->
    exists x, result s' = result s ++ x.
Proof.
  induction lines as [|l lines IH]; intros i s s' H.
  - injection H as <-. exists EmptyString. now rewrite append_nil_r.
  - simpl rangeLoop in H.
    destruct (scanBody md numLines i l s) as [s1| |] eqn:E; simpl in H;
      try discriminate.
    apply scanBody_result_extends in E. destruct E as [x Hx].
    apply IH in H. destruct H as [y Hy].
    exists (x ++ y). now rewrite Hy, Hx, append_assoc.
Qed.

(** The scan from a top-level opening fence up to a point inside the block,
    or through its closing fence. *)
Lemma scan_code_block (d : string) (i : Z) (opener : string)
    (body : list string) (s : scan) :
  outside s ->
  HasPrefix (TrimSpace opener) "```" = true ->
  HasPrefix (TrimSpace opener) "```spoiler" = false ->
  (forall l, In l body -> TrimSpace l <> "```") ->
  let numLines := len (Split d nl) in
  rangeLoop i (opener :: body) (scanBody d numLines) s =
    Next (mkScan (result s ++ emitted numLines i (opener :: body))
                 (spoilerContent s) false true)
  /\ forall closer, TrimSpace closer = "```" ->
     rangeLoop i (opener :: body ++ [closer]) (scanBody d numLines) s =
       Next (mkScan (result s ++ emitted numLines i (opener :: body ++ [closer]))
                    (spoilerContent s) false false).
Proof.
  intros Hout Hfence Hsp Hbody numLines.
  assert (Hin : rangeLoop i (opener :: body) (scanBody d numLines) s =
                Next (mkScan (result s ++ emitted numLines i (opener :: body))
                             (spoilerContent s) false true)).
  { simpl rangeLoop. rewrite scanBody_open_code by assumption.
    simpl flow_bind. rewrite rangeLoop_code_stays by (auto; reflexivity).
    simpl. now rewrite append_assoc. }
  split; [exact Hin|].
  intros closer Hclose.
  change (opener :: body ++ [closer])%list
    with ((opener :: body) ++ [closer])%list.
  rewrite rangeLoop_app, Hin. simpl flow_bind.
  rewrite scanBody_code_closes by (auto; reflexivity).
  simpl. rewrite emitted_app. simpl emitted.
  rewrite len_cons, !append_assoc, append_nil_r.
  now replace (i + (1 + len body)) with (i + 1 + len body) by lia.
Qed.

(** C8 (top-level code block passthrough).  A plain fence met [Outside]
    opens a top-level code block that ends at the next bare fence.  Whatever
    the lines in between contain, the scan stays inside the block, writes the
    block as it is, is [Outside] again after the closing fence, and the text
    that [_EscapeMarkdown] returns contains the block unchanged. *)
Theorem top_level_code_block_passthrough (d : string)
    (pre body post : list string) (opener closer : string) (s : scan) :
  Split d nl = (pre ++ opener :: body ++ closer :: post)%list ->
  scanPrefix d pre = Next s ->
  outside s ->
  HasPrefix (TrimSpace opener) "```" = true ->
  HasPrefix (TrimSpace opener) "```spoiler" = false ->
  (forall l, In l body -> TrimSpace l <> "```") ->
  TrimSpace closer = "```" ->
  let block := Join (opener :: body ++ [closer]) NL in
  (forall b1 b2, body = (b1 ++ b2)%list ->
     scanPrefix d (pre ++ opener :: b1) =
     Next (mkScan (result s ++ Join (opener :: b1) NL ++ NL)
                  (spoilerContent s) false true))
  /\ scanPrefix d (pre ++ opener :: body ++ [closer]) =
     Next (mkScan (result s ++ block
                   ++ match post with [] => EmptyString | _ => NL end)
                  (spoilerContent s) false false)
  /\ exists t ok a b,
       _EscapeMarkdown d = Some (t, ok) /\ t = a ++ block ++ b.
Proof.
  intros Hsplit Hpre Hout Hfence Hsp Hbody Hclose block.
  assert (Hlen : len (Split d nl) =
                 len pre + 1 + len body + 1 + len post).
  { rewrite Hsplit, len_app, len_cons, len_app, len_cons. lia. }
  pose proof (len_nonneg pre) as Hp0. pose proof (len_nonneg post) as Hq0.
  assert (Hinside : forall b1 b2, body = (b1 ++ b2)%list ->
     scanPrefix d (pre ++ opener :: b1) =
     Next (mkScan (result s ++ Join (opener :: b1) NL ++ NL)
                  (spoilerContent s) false true)).
  { intros b1 b2 Hb. rewrite scanPrefix_app, Hpre. cbn [flow_bind].
    destruct (scan_code_block d (len pre) opener b1 s Hout Hfence Hsp)
      as [Hrun _].
    { intros l Hl. apply Hbody. rewrite Hb. apply in_or_app. now left. }
    rewrite Hrun. rewrite emitted_inner; [reflexivity|].
    rewrite Hlen, Hb, len_cons, len_app.
    pose proof (len_nonneg b1). pose proof (len_nonneg b2). lia. }
  assert (Hthrough :
     scanPrefix d (pre ++ opener :: body ++ [closer]) =
     Next (mkScan (result s ++ block
                   ++ match post with [] => EmptyString | _ => NL end)
                  (spoilerContent s) false false)).
  { rewrite scanPrefix_app, Hpre. cbn [flow_bind].
    destruct (scan_code_block d (len pre) opener body s Hout Hfence Hsp Hbody)
      as [_ Hrun].
    rewrite (Hrun closer Hclose).
    rewrite emitted_block; [|discriminate|].
    - do 3 f_equal. rewrite Hlen, len_cons, len_app, len_cons.
      change (len (@nil string)) with 0.
      destruct post as [|p post].
      + change (len (@nil string)) with 0.
        now replace (_ <? _) with false by (symmetry; apply Z.ltb_ge; lia).
      + rewrite (len_cons p). pose proof (len_nonneg post).
        now replace (_ <? _) with true by (symmetry; apply Z.ltb_lt; lia).
    - rewrite Hlen, len_cons, len_app, len_cons.
      change (len (@nil string)) with 0. lia. }
  split; [exact Hinside|]. split; [exact Hthrough|].
  assert (Hlines : Split d nl =
                   ((pre ++ opener :: body ++ [closer]) ++ post)%list).
  { rewrite Hsplit, <- !app_assoc. simpl. now rewrite <- app_assoc. }
  destruct (_EscapeMarkdown_cases d) as [[sf [Hsf He]]|[_ He]].
  - destruct (inSpoiler sf || inTopLevelCode sf).
    + exists d, false.
      destruct (Join_middle pre (opener :: body ++ [closer]) post NL)
        as [a [b Hab]]; [discriminate|].
      exists a, b. split; [assumption|].
      rewrite <- (Join_Split d) at 1. rewrite Hsplit. subst block.
      rewrite <- Hab. do 2 f_equal. simpl. now rewrite <- app_assoc.
    + rewrite scanLines_prefix, Hlines, scanPrefix_app, Hthrough in Hsf.
      cbn [flow_bind] in Hsf.
      apply rangeLoop_result_extends in Hsf. destruct Hsf as [x Hx].
      simpl in Hx.
      exists (result sf), true, (result s),
        (match post with [] => EmptyString | _ => NL end ++ x).
      split; [assumption|]. rewrite Hx. now rewrite !append_assoc.
  - exists d, false.
    destruct (Join_middle pre (opener :: body ++ [closer]) post NL)
      as [a [b Hab]]; [discriminate|].
    exists a, b. split; [assumption|].
    rewrite <- (Join_Split d) at 1. rewrite Hsplit. subst block.
    rewrite <- Hab. do 2 f_equal. simpl. now rewrite <- app_assoc.
Qed.

(** A block that holds lines looking like a spoiler opener and like an
    indented nested fence. *)
Lemma top_level_code_block_passthrough_witness :
  exists t ok a b,
    _EscapeMarkdown
      (doc ["x"; "```go"; "```spoiler S"; "  ```js"; "```"; "y"])
    = Some (t, ok)
    /\ t = a ++ Join ("```go" :: ["```spoiler S"; "  ```js"] ++ ["```"]) NL ++ b.
Proof.
  apply (top_level_code_block_passthrough
           (doc ["x"; "```go"; "```spoiler S"; "  ```js"; "```"; "y"])
           ["x"] ["```spoiler S"; "  ```js"] ["y"] "```go" "```"
           (mkScan ("x" ++ NL) EmptyString false false)).
  - reflexivity.
  - reflexivity.
  - split; reflexivity.
  - reflexivity.
  - reflexivity.
  - intros l [Hl|[Hl|[]]]; subst l; vm_compute; discriminate.
  - reflexivity.
Defined.

(** ** The exported helpers *)


(** The fence token is three backquotes. *)
Lemma HasPrefix_fence (c : ascii) (s : string) :
  HasPrefix (String c s) "```" =
  if ascii_dec "`" c then HasPrefix s "``" else false.
Proof. reflexivity. Qed.

Lemma HasPrefix_fence2 (c : ascii) (s : string) :
  HasPrefix (String c s) "``" =
  if ascii_dec "`" c then HasPrefix s "`" else false.
Proof. reflexivity. Qed.

Lemma HasPrefix_fence1 (c : ascii) (s : string) :
  HasPrefix (String c s) "`" = if ascii_dec "`" c then true else false.
Proof.
  unfold HasPrefix. cbn [prefix].
  destruct (ascii_dec "`" c); [|reflexivity]. now destruct s.
Qed.

Lemma replaceFrom_absent (s : string) :
  Contains s "```" = false -> replaceFrom O s "```" "~~~" = s.
Proof.
  induction s as [|c s IH]; intros H; [reflexivity|].
  cbn [Contains] in H. apply orb_false_iff in H. destruct H as [Hp Hc].
  cbn [replaceFrom]. rewrite Hp. now rewrite IH.
Qed.

Lemma replaceFrom_head1 (s : string) :
  HasPrefix s "`" = false ->
  HasPrefix (replaceFrom O s "```" "~~~") "`" = false.
Proof.
  destruct s as [|c s]; intros H; [reflexivity|].
  cbn [replaceFrom]. rewrite HasPrefix_fence. rewrite HasPrefix_fence1 in H.
  destruct (ascii_dec "`" c); [discriminate|].
  rewrite HasPrefix_fence1. now destruct (ascii_dec "`" c).
Qed.

Lemma replaceFrom_head2 (s : string) :
  HasPrefix s "``" = false ->
  HasPrefix (replaceFrom O s "```" "~~~") "``" = false.
Proof.
  destruct s as [|c s]; intros H; [reflexivity|].
  cbn [replaceFrom]. rewrite HasPrefix_fence. rewrite HasPrefix_fence2 in H.
  destruct (ascii_dec "`" c) as [e|n].
  - destruct (HasPrefix s "``") eqn:E.
    + apply (HasPrefix_append "`" "`") in E. congruence.
    + rewrite HasPrefix_fence2. destruct (ascii_dec "`" c); [|reflexivity].
      now apply replaceFrom_head1.
  - rewrite HasPrefix_fence2. now destruct (ascii_dec "`" c).
Qed.

(** No fence token is left after the replacement. *)
Lemma replaceFrom_no_fence (s : string) :
  forall k, Contains (replaceFrom k s "```" "~~~") "```" = false.
Proof.
  induction s as [|c s IH]; intros k; [reflexivity|].
  cbn [replaceFrom]. destruct k as [|k]; [|apply IH].
  rewrite HasPrefix_fence.
  destruct (ascii_dec "`" c) as [e|n].
  - destruct (HasPrefix s "``") eqn:E.
    + change (Contains ("~~~" ++ replaceFrom (Nat.pred (String.length "```"))
                                  s "```" "~~~") "```")
        with (Contains (replaceFrom 2 s "```" "~~~") "```").
      apply IH.
    + cbn [Contains]. rewrite IH, HasPrefix_fence.
      destruct (ascii_dec "`" c); [|reflexivity].
      now rewrite replaceFrom_head2.
  - cbn [Contains]. rewrite IH, HasPrefix_fence.
    now destruct (ascii_dec "`" c).
Qed.

Lemma HasPrefix_drop (p s : string) :
  HasPrefix s p = true -> s = p ++ drop (String.length p) s.
Proof.
  unfold HasPrefix. revert s.
  induction p as [|a p IH]; intros s H; [reflexivity|].
  destruct s as [|b s]; cbn [prefix] in H; [discriminate|].
  destruct (ascii_dec a b) as [->|]; [|discriminate].
  cbn [String.length drop append]. f_equal. now apply IH.
Qed.

Lemma drop_length (k : nat) :
  forall s, String.length (drop k s) = (String.length s - k)%nat.
Proof.
  induction k as [|k IH]; intros [|c s]; cbn [drop String.length];
    try reflexivity; try lia.
  now rewrite IH.
Qed.

Lemma replaceFrom_fence (s : string) :
  replaceFrom O ("```" ++ s) "```" "~~~" = "~~~" ++ replaceFrom O s "```" "~~~".
Proof. destruct s; reflexivity. Qed.

(** [strings.ReplaceAll] of the fence token by tildes does what the
    description says. *)
Lemma replaceFrom_tildes :
  forall (n : nat) (s : string),
    (String.length s <= n)%nat -> tildes s (replaceFrom O s "```" "~~~").
Proof.
  induction n as [|n IH]; intros s Hn.
  - destruct s; [constructor | simpl in Hn; lia].
  - destruct s as [|c s]; [constructor|].
    destruct (HasPrefix (String c s) "```") eqn:E.
    + rewrite (HasPrefix_drop _ _ E), replaceFrom_fence.
      constructor. apply IH.
      rewrite drop_length. cbn [String.length] in *. lia.
    + cbn [replaceFrom]. rewrite E. constructor; [assumption|].
      apply IH. cbn [String.length] in Hn. lia.
Qed.

(** C10 ([Spoiler] replaces every fence token).  [Spoiler] wraps the text
    between the opener line and a closing fence, after replacing the fence
    tokens of the text by tildes wherever they stand (every fence token met
    from left to right, all other bytes kept); no fence token is left in the
    text it wraps; nothing is checked and nothing can fail. *)
Theorem spoiler_replaces_every_fence (heading text : string) :
  exists t,
    Spoiler heading text = "```spoiler " ++ heading ++ NL ++ t ++ NL ++ "```"
    /\ t = ReplaceAll text "```" "~~~"
    /\ tildes text t
    /\ Contains t "```" = false.
Proof.
  exists (ReplaceAll text "```" "~~~"). repeat split.
  - unfold Spoiler, WriteSpoiler.
    destruct (Contains text "```") eqn:E.
    + now rewrite !append_assoc.
    + unfold ReplaceAll. rewrite replaceFrom_absent by assumption.
      now rewrite !append_assoc.
  - apply (replaceFrom_tildes (String.length text)). lia.
  - apply replaceFrom_no_fence.
Qed.

(** Fences in the middle of a line, an unbalanced fence and a fence of four
    backquotes are all rewritten. *)
Example spoiler_rewrites_anywhere :
  Spoiler "h" "a```b ````" = "```spoiler h" ++ NL ++ "a~~~b ~~~`" ++ NL ++ "```".
Proof. reflexivity. Qed.

(** The nested blocks of the repository's tests. *)
Example spoiler_nested_blocks :
  Spoiler "Code Example"
          (CodeBlock "go" ("fmt.Println(" ++ DQ ++ "Hello" ++ DQ ++ ")"))
  = nested_example_rewritten.
Proof. reflexivity. Qed.

(** ** White space around a fence

    The fence token starts and ends with a backquote, a byte that is no white
    space and is part of no encoding of a white-space rune: trimming stops
    at it whatever precedes or follows. *)

Lemma list_ascii_of_string_app (a b : string) :
  list_ascii_of_string (a ++ b) =
  (list_ascii_of_string a ++ list_ascii_of_string b)%list.
Proof. induction a as [|c a IH]; simpl; [reflexivity | now rewrite IH]. Qed.

Lemma string_of_list_ascii_app (a b : list ascii) :
  string_of_list_ascii (a ++ b) =
  string_of_list_ascii a ++ string_of_list_ascii b.
Proof. induction a as [|c a IH]; simpl; [reflexivity | now rewrite IH]. Qed.

Lemma TrimLeftSpace_suffix :
  forall (n : nat) (x : string),
    (String.length x <= n)%nat -> exists w, x = w ++ TrimLeftSpace x.
Proof.
  induction n as [|n IH]; intros x Hn.
  - destruct x; [now exists EmptyString | simpl in Hn; lia].
  - destruct x as [|c1 s1]; [now exists EmptyString|].
    cbn [TrimLeftSpace String.length] in *.
    destruct (isSpace1 c1).
    { destruct (IH s1 ltac:(lia)) as [w Hw].
      exists (String c1 w). cbn [append]. now rewrite <- Hw. }
    destruct s1 as [|c2 s2]; [now exists EmptyString|].
    cbn [String.length] in Hn.
    destruct (isSpace2 c1 c2).
    { destruct (IH s2 ltac:(lia)) as [w Hw].
      exists (String c1 (String c2 w)). cbn [append]. now rewrite <- Hw. }
    destruct s2 as [|c3 s3]; [now exists EmptyString|].
    cbn [String.length] in Hn.
    destruct (isSpace3 c1 c2 c3); [|now exists EmptyString].
    destruct (IH s3 ltac:(lia)) as [w Hw].
    exists (String c1 (String c2 (String c3 w))). cbn [append].
    now rewrite <- Hw.
Qed.

Lemma trimRev_suffix :
  forall (n : nat) (r : list ascii),
    (List.length r <= n)%nat -> exists w, r = (w ++ trimRev r)%list.
Proof.
  induction n as [|n IH]; intros r Hn.
  - destruct r; [now exists [] | simpl in Hn; lia].
  - destruct r as [|c1 r1]; [now exists []|].
    cbn [trimRev List.length] in *.
    destruct (isSpace1 c1).
    { destruct (IH r1 ltac:(lia)) as [w Hw].
      exists (c1 :: w). cbn [app]. now rewrite <- Hw. }
    destruct r1 as [|c2 r2]; [now exists []|].
    cbn [List.length] in Hn.
    destruct (isSpace2 c2 c1).
    { destruct (IH r2 ltac:(lia)) as [w Hw].
      exists (c1 :: c2 :: w). cbn [app]. now rewrite <- Hw. }
    destruct r2 as [|c3 r3]; [now exists []|].
    cbn [List.length] in Hn.
    destruct (isSpace3 c3 c2 c1); [|now exists []].
    destruct (IH r3 ltac:(lia)) as [w Hw].
    exists (c1 :: c2 :: c3 :: w). cbn [app]. now rewrite <- Hw.
Qed.

(** What [TrimRightSpace] leaves is a prefix. *)
Lemma TrimRightSpace_prefix (x : string) :
  exists w, x = TrimRightSpace x ++ w.
Proof.
  unfold TrimRightSpace.
  destruct (trimRev_suffix _ (rev (list_ascii_of_string x)) (le_n _))
    as [w Hw].
  exists (string_of_list_ascii (rev w)).
  rewrite <- string_of_list_ascii_app, <- rev_app_distr, <- Hw.
  now rewrite rev_involutive, string_of_list_ascii_of_string.
Qed.

Lemma backquote_no_space2 (c : ascii) :
  isSpace2 "`" c = false /\ isSpace2 c "`" = false.
Proof. split; [reflexivity|]. unfold isSpace2. cbn. apply andb_false_r. Qed.

Lemma backquote_no_space3 (c c' : ascii) :
  isSpace3 "`" c c' = false /\ isSpace3 c c' "`" = false.
Proof.
  split; [reflexivity|]. unfold isSpace3. cbn.
  now rewrite !andb_false_r.
Qed.

Lemma TrimLeftSpace_app_backquote :
  forall (n : nat) (x y t : string),
    (String.length x <= n)%nat ->
    TrimLeftSpace x = String "`" t ->
    TrimLeftSpace (x ++ y) = TrimLeftSpace x ++ y.
Proof.
  induction n as [|n IH]; intros x y t Hn H.
  - destruct x; [discriminate H | simpl in Hn; lia].
  - destruct x as [|c1 s1]; [discriminate H|].
    cbn [TrimLeftSpace append String.length] in *.
    destruct (isSpace1 c1) eqn:E1.
    { apply IH with t; [lia | assumption]. }
    destruct s1 as [|c2 s2].
    { injection H as -> <-. cbn [append].
      destruct y as [|c2 y]; [reflexivity|].
      rewrite (proj1 (backquote_no_space2 c2)).
      destruct y as [|c3 y]; [reflexivity|].
      now rewrite (proj1 (backquote_no_space3 c2 c3)). }
    cbn [append String.length] in *.
    destruct (isSpace2 c1 c2) eqn:E2.
    { apply IH with t; [lia | assumption]. }
    destruct s2 as [|c3 s3].
    { injection H as -> <-. cbn [append].
      destruct y as [|c3 y]; [reflexivity|].
      now rewrite (proj1 (backquote_no_space3 c2 c3)). }
    cbn [append String.length] in *.
    destruct (isSpace3 c1 c2 c3) eqn:E3; [|reflexivity].
    apply IH with t; [lia | assumption].
Qed.

Lemma trimRev_app_backquote :
  forall (n : nat) (r y t : list ascii),
    (List.length r <= n)%nat ->
    trimRev r = "`"%char :: t ->
    trimRev (r ++ y) = (trimRev r ++ y)%list.
Proof.
  induction n as [|n IH]; intros r y t Hn H.
  - destruct r; [discriminate H | simpl in Hn; lia].
  - destruct r as [|c1 r1]; [discriminate H|].
    cbn [trimRev app List.length] in *.
    destruct (isSpace1 c1) eqn:E1.
    { apply IH with t; [lia | assumption]. }
    destruct r1 as [|c2 r2].
    { injection H as -> <-. cbn [app].
      destruct y as [|c2 y]; [reflexivity|].
      rewrite (proj2 (backquote_no_space2 c2)).
      destruct y as [|c3 y]; [reflexivity|].
      now rewrite (proj2 (backquote_no_space3 c3 c2)). }
    cbn [app List.length] in *.
    destruct (isSpace2 c2 c1) eqn:E2.
    { apply IH with t; [lia | assumption]. }
    destruct r2 as [|c3 r3].
    { injection H as -> <-. cbn [app].
      destruct y as [|c3 y]; [reflexivity|].
      now rewrite (proj2 (backquote_no_space3 c3 c2)). }
    cbn [app List.length] in *.
    destruct (isSpace3 c3 c2 c1) eqn:E3; [|reflexivity].
    apply IH with t; [lia | assumption].
Qed.

Lemma TrimRightSpace_app_backquote (x y u : string) :
  TrimRightSpace x = u ++ "`" ->
  TrimRightSpace (y ++ x) = y ++ TrimRightSpace x.
Proof.
  unfold TrimRightSpace. intros H.
  apply (f_equal list_ascii_of_string) in H.
  rewrite list_ascii_of_string_of_list_ascii, list_ascii_of_string_app in H.
  apply (f_equal (@rev ascii)) in H.
  rewrite rev_involutive, rev_app_distr in H. cbn [list_ascii_of_string rev app] in H.
  rewrite list_ascii_of_string_app, rev_app_distr.
  rewrite (trimRev_app_backquote _ _ _ _ (le_n _) H).
  rewrite rev_app_distr, rev_involutive, string_of_list_ascii_app.
  now rewrite string_of_list_ascii_of_string.
Qed.

Lemma TrimRightSpace_newline (x : string) :
  TrimRightSpace (x ++ NL) = TrimRightSpace x.
Proof.
  unfold TrimRightSpace.
  rewrite list_ascii_of_string_app, rev_app_distr. reflexivity.
Qed.

(** A line whose trimmed form is the bare fence: without its trailing white
    space it is its indentation and the fence. *)
Lemma bare_fence_TrimRightSpace (line : string) :
  TrimSpace line = "```" ->
  exists w, line = w ++ TrimLeftSpace line /\ TrimRightSpace line = w ++ "```".
Proof.
  intros H. unfold TrimSpace in H.
  destruct (TrimLeftSpace_suffix _ line (le_n _)) as [w Hw].
  exists w. split; [assumption|].
  rewrite Hw at 1.
  rewrite (TrimRightSpace_app_backquote _ w "``"); [now rewrite H | now rewrite H].
Qed.

Lemma HasPrefix_self (p z : string) : HasPrefix (p ++ z) p = true.
Proof.
  unfold HasPrefix. induction p as [|a p IH].
  - now destruct z.
  - cbn [append prefix]. now destruct (ascii_dec a a).
Qed.

(** A line whose trimmed form starts with the fence: without its leading
    white space it starts with the fence too. *)
Lemma fence_TrimLeftSpace (line p : string) :
  HasPrefix (TrimSpace line) ("```" ++ p) = true ->
  HasPrefix (TrimLeftSpace line) ("```" ++ p) = true
  /\ exists t, TrimLeftSpace line = String "`" t.
Proof.
  intros H. unfold TrimSpace in H.
  destruct (TrimRightSpace_prefix (TrimLeftSpace line)) as [w Hw].
  apply HasPrefix_drop in H.
  rewrite H in Hw. rewrite Hw. split.
  - rewrite (append_assoc ("```" ++ p)). apply HasPrefix_self.
  - cbn [append]. eauto.
Qed.

(** The trimmed form of a spoiler buffer: the opener loses its indentation,
    the closing fence its trailing white space and the newline after it, and
    nothing in between changes. *)
Lemma TrimSpace_block (opener middle closer tail : string) :
  HasPrefix (TrimSpace opener) "```spoiler" = true ->
  TrimSpace closer = "```" ->
  tail = EmptyString \/ tail = NL ->
  TrimSpace ((opener ++ middle) ++ closer ++ tail) =
  (TrimLeftSpace opener ++ middle) ++ TrimRightSpace closer.
Proof.
  intros Hop Hcl Htail.
  destruct (fence_TrimLeftSpace opener "spoiler" Hop) as [_ [t Ht]].
  destruct (bare_fence_TrimRightSpace closer Hcl) as [w [_ Hw]].
  unfold TrimSpace.
  rewrite !append_assoc.
  rewrite (TrimLeftSpace_app_backquote _ _ _ t (le_n _) Ht).
  rewrite <- !append_assoc.
  assert (Hdrop : TrimRightSpace
                    (((TrimLeftSpace opener ++ middle) ++ closer) ++ tail)
                  = TrimRightSpace
                      ((TrimLeftSpace opener ++ middle) ++ closer)).
  { destruct Htail as [->| ->];
      [now rewrite append_nil_r | apply TrimRightSpace_newline]. }
  rewrite Hdrop.
  apply (TrimRightSpace_app_backquote _ _ (w ++ "``")).
  rewrite Hw. now rewrite append_assoc.
Qed.

(** ** Lines and newlines *)

Lemma hasByte_app (c : ascii) (a b : string) :
  hasByte c (a ++ b) = hasByte c a || hasByte c b.
Proof.
  induction a as [|x a IH]; [reflexivity|].
  cbn [append hasByte]. now rewrite IH, orb_assoc.
Qed.

Lemma Split_lines_no_newline (s l : string) :
  In l (Split s nl) -> hasByte nl l = false.
Proof.
  revert l. induction s as [|c s IH]; intros l Hl.
  - destruct Hl as [<-|[]]. reflexivity.
  - cbn [Split] in Hl. destruct (Ascii.eqb c nl) eqn:E.
    + destruct Hl as [<-|Hl]; [reflexivity | now apply IH].
    + pose proof (Split_not_nil s nl) as Hne.
      destruct (Split s nl) as [|l0 ls]; [contradiction|].
      destruct Hl as [<-|Hl].
      * cbn [hasByte]. rewrite E. apply IH. now left.
      * apply IH. now right.
Qed.

Lemma Split_one (a : string) : hasByte nl a = false -> Split a nl = [a].
Proof.
  induction a as [|c a IH]; intros H; [reflexivity|].
  cbn [hasByte] in H. apply orb_false_iff in H. destruct H as [Hc Ha].
  cbn [Split]. rewrite Hc, (IH Ha). reflexivity.
Qed.

Lemma Split_line (a b : string) :
  hasByte nl a = false -> Split (a ++ NL ++ b) nl = a :: Split b nl.
Proof.
  induction a as [|c a IH]; intros H; [reflexivity|].
  cbn [hasByte] in H. apply orb_false_iff in H. destruct H as [Hc Ha].
  cbn [append Split]. rewrite Hc.
  change (a ++ String nl b) with (a ++ NL ++ b). now rewrite (IH Ha).
Qed.

Lemma Split_eachLine (ls : list string) (c : string) :
  (forall l, In l ls -> hasByte nl l = false) -> hasByte nl c = false ->
  Split (eachLine ls ++ c) nl = (ls ++ [c])%list.
Proof.
  intros Hls Hc. induction ls as [|l ls IH].
  - now apply Split_one.
  - cbn [eachLine app]. rewrite !append_assoc.
    rewrite Split_line by (apply Hls; now left).
    rewrite IH; [reflexivity|]. intros x Hx. apply Hls. now right.
Qed.

Lemma emitted_eachLine (numLines : Z) (lines : list string) :
  forall i, i + len lines < numLines ->
            emitted numLines i lines = eachLine lines.
Proof.
  induction lines as [|l lines IH]; intros i Hi; [reflexivity|].
  rewrite len_cons in Hi. pose proof (len_nonneg lines).
  cbn [emitted eachLine]. rewrite withNewline_inner by lia.
  rewrite IH by lia. now rewrite append_assoc.
Qed.

(** The buffer of a spoiler: its lines up to the closing fence, each with its
    newline, then the closing fence, with a newline unless it ends the
    input. *)
Lemma emitted_buffer (numLines : Z) (lines : list string) (closer : string)
    (i : Z) :
  i + len lines + 1 <= numLines ->
  exists tail,
    (tail = EmptyString \/ tail = NL)
    /\ emitted numLines i (lines ++ [closer]) = eachLine lines ++ closer ++ tail.
Proof.
  intros Hi. rewrite emitted_app, emitted_eachLine by lia.
  cbn [emitted]. unfold withNewline.
  destruct (i + len lines <? numLines - 1).
  - exists NL. split; [now right|]. now rewrite append_nil_r.
  - exists EmptyString. split; [now left|]. reflexivity.
Qed.

(** ** The sub-processor on the buffers of the scan *)

Lemma index_app_middle (pre rest : list string) (x : string) :
  index (pre ++ x :: rest) (len pre) = Next x.
Proof.
  unfold index. pose proof (len_nonneg pre) as Hp.
  pose proof (len_nonneg rest) as Hr.
  rewrite len_app, len_cons.
  replace ((len pre <? 0) || (len pre + (1 + len rest) <=? len pre))
    with false
    by (symmetry; apply orb_false_iff; split;
        [apply Z.ltb_ge | apply Z.leb_gt]; lia).
  unfold len. rewrite Nat2Z.id, nth_error_app2 by lia.
  now rewrite Nat.sub_diag.
Qed.

(** The counting loop reads the interior lines in order. *)
Lemma forCount_nestedLines (block : string) (body : list string) :
  forall (pre post : list string) (s : nested),
    forCount (List.length body) (len pre)
             (nestedBody block (pre ++ body ++ post)) s
    = rangeLoop (len pre) body (fun _ line => nestedLine block line) s.
Proof.
  induction body as [|l body IH]; intros pre post s; [reflexivity|].
  cbn [List.length forCount rangeLoop]. unfold nestedBody at 1.
  cbn [app]. rewrite index_app_middle. cbn [flow_bind].
  destruct (nestedLine block l s) as [s1| |]; cbn [flow_bind];
    [|reflexivity|reflexivity].
  specialize (IH (pre ++ [l])%list post s1).
  rewrite <- app_assoc in IH. cbn [app] in IH.
  rewrite len_app in IH. change (len [l]) with 1 in IH.
  exact IH.
Qed.

Lemma rangeLoop_index_free {S : Type} (body : string -> S -> flow S)
    (xs : list string) :
  forall (i j : Z) (s : S),
    rangeLoop i xs (fun _ x => body x) s = rangeLoop j xs (fun _ x => body x) s.
Proof.
  induction xs as [|x xs IH]; intros i j s; [reflexivity|].
  cbn [rangeLoop]. destruct (body x s); cbn [flow_bind]; auto.
Qed.

Lemma nestedLine_text (block line : string) (s : nested) :
  inNestedCode s = false -> fenceLine line = false ->
  nestedLine block line s =
  Next (mkNested (nresult s ++ line ++ NL) false (fenceBalance s)).
Proof.
  unfold fenceLine, nestedLine. intros Hs Hl.
  rewrite Hs, Hl. cbn. now rewrite append_assoc.
Qed.

Lemma nestedLine_opens (block line : string) (s : nested) :
  inNestedCode s = false -> fenceBalance s = 0 -> fenceLine line = true ->
  nestedLine block line s =
  Next (mkNested ((nresult s ++ "~~~" ++ TrimPrefix line "```") ++ NL) true 1).
Proof.
  unfold fenceLine, nestedLine. intros Hs Hb Hl.
  rewrite Hs, Hb, Hl. reflexivity.
Qed.

Lemma nestedLine_inside (block line : string) (s : nested) :
  inNestedCode s = true -> TrimSpace line <> "```" ->
  nestedLine block line s =
  Next (mkNested ((nresult s ++ line) ++ NL) true (fenceBalance s)).
Proof.
  unfold nestedLine. intros Hs Hl. apply String.eqb_neq in Hl.
  rewrite Hs, Hl. reflexivity.
Qed.

(** A nested block stays open as long as no bare fence comes. *)
Lemma nestedLines_inside (block : string) (body : list string) :
  forall (i : Z) (s : nested),
    inNestedCode s = true ->
    (forall l, In l body -> TrimSpace l <> "```") ->
    exists s', rangeLoop i body (fun _ line => nestedLine block line) s
               = Next s'
               /\ inNestedCode s' = true.
Proof.
  induction body as [|l body IH]; intros i s Hs Hb.
  - exists s. split; [reflexivity | assumption].
  - cbn [rangeLoop]. rewrite nestedLine_inside by (auto; apply Hb; now left).
    cbn [flow_bind]. apply IH; [reflexivity|].
    intros x Hx. apply Hb. now right.
Qed.

(** Interior lines without a fence are copied. *)
Lemma nestedLines_text (block : string) (body : list string) :
  forall (i : Z) (s : nested),
    inNestedCode s = false ->
    existsb fenceLine body = false ->
    rangeLoop i body (fun _ line => nestedLine block line) s
    = Next (mkNested (nresult s ++ eachLine body) false (fenceBalance s)).
Proof.
  induction body as [|l body IH]; intros i s Hs Hb.
  - cbn [rangeLoop eachLine]. rewrite append_nil_r. destruct s; cbn in *.
    now subst.
  - cbn [existsb] in Hb. apply orb_false_iff in Hb. destruct Hb as [Hl Hb].
    cbn [rangeLoop]. rewrite nestedLine_text by assumption.
    cbn [flow_bind]. rewrite IH by (auto; reflexivity).
    cbn [nresult fenceBalance eachLine]. now rewrite !append_assoc.
Qed.

(** An interior fence opens a nested block that no line of the buffer can
    close. *)
Lemma nestedLines_unclosed (block : string) (body : list string) :
  forall (i : Z) (s : nested),
    inNestedCode s = false -> fenceBalance s = 0 ->
    (forall l, In l body -> TrimSpace l <> "```") ->
    existsb fenceLine body = true ->
    exists s', rangeLoop i body (fun _ line => nestedLine block line) s
               = Next s'
               /\ inNestedCode s' = true.
Proof.
  induction body as [|l body IH]; intros i s Hs Hbal Hb Hf;
    [discriminate Hf|].
  cbn [rangeLoop]. destruct (fenceLine l) eqn:El.
  - rewrite nestedLine_opens by assumption. cbn [flow_bind].
    apply nestedLines_inside; [reflexivity|].
    intros x Hx. apply Hb. now right.
  - rewrite nestedLine_text by assumption. cbn [flow_bind].
    cbn [existsb] in Hf. rewrite El in Hf. cbn [orb] in Hf.
    apply IH; auto. intros x Hx. apply Hb. now right.
Qed.

(** [processSpoilerContent] in terms of the lines of the trimmed block. *)
Lemma processSpoilerContent_lines (block first last : string)
    (body : list string) :
  Split (TrimSpace block) nl = (first :: body ++ [last])%list ->
  HasPrefix first "```spoiler" = true ->
  processSpoilerContent block =
  call (if negb (String.eqb last "```") then Return (block, false) else
        s <- nestedLines block body (mkNested (first ++ NL) false 0) ;;
        if inNestedCode s || negb (fenceBalance s =? 0)
        then Return (block, false)
        else Return (nresult s ++ last, true)).
Proof.
  intros Hlines Hfirst.
  unfold processSpoilerContent, processSpoilerContent_body.
  destruct (String.eqb (TrimSpace block) EmptyString) eqn:E.
  { apply String.eqb_eq in E. rewrite E in Hlines.
    destruct body; discriminate Hlines. }
  rewrite Hlines.
  assert (Hlen : len (first :: body ++ [last]) = len body + 2).
  { rewrite len_cons, len_app. change (len [last]) with 1. lia. }
  pose proof (len_nonneg body) as Hb.
  rewrite Hlen.
  replace (len body + 2 =? 0) with false by (symmetry; apply Z.eqb_neq; lia).
  replace (len body + 2 <? 2) with false by (symmetry; apply Z.ltb_ge; lia).
  change (index (first :: body ++ [last]) 0)
    with (index ([] ++ first :: body ++ [last]) (len (@nil string))).
  rewrite index_app_middle. cbn [app flow_bind]. rewrite Hfirst.
  cbn [negb].
  assert (Hlast : index (first :: body ++ [last]) (len body + 2 - 1)
                  = Next last).
  { change (first :: body ++ [last])%list
      with ((first :: body) ++ [last])%list.
    replace (len body + 2 - 1) with (len (first :: body))
      by (rewrite len_cons; lia).
    apply index_app_middle. }
  rewrite Hlast. cbn [flow_bind].
  destruct (String.eqb last "```"); cbn [negb]; [|reflexivity].
  unfold forRange.
  replace (Z.to_nat (len body + 2 - 1 - 1)) with (List.length body)
    by (unfold len; lia).
  change (forCount (List.length body) 1
            (nestedBody block (first :: body ++ [last])))
    with (forCount (List.length body) (len [first])
            (nestedBody block ([first] ++ body ++ [last]))).
  rewrite forCount_nestedLines.
  unfold nestedLines.
  rewrite (rangeLoop_index_free (nestedLine block) body (len [first]) 0).
  reflexivity.
Qed.

(** What [processSpoilerContent] does with a buffer of the scan: a spoiler
    opener, lines that are no bare fence, and a closing line whose trimmed
    form is the bare fence.  The first line of the trimmed buffer is a
    spoiler opener; its last line is the closing line without its trailing
    white space, indentation included.  The call succeeds exactly when that
    last line is the bare fence and no interior line is a fence; nothing is
    then rewritten. *)
Theorem processSpoilerContent_scan_buffer (opener closer tail : string)
    (body : list string) :
  hasByte nl opener = false ->
  (forall l, In l body -> hasByte nl l = false) ->
  hasByte nl closer = false ->
  HasPrefix (TrimSpace opener) "```spoiler" = true ->
  (forall l, In l body -> TrimSpace l <> "```") ->
  TrimSpace closer = "```" ->
  tail = EmptyString \/ tail = NL ->
  let buffer := eachLine (opener :: body) ++ closer ++ tail in
  Split (TrimSpace buffer) nl =
    (TrimLeftSpace opener :: body ++ [TrimRightSpace closer])%list
  /\ HasPrefix (TrimLeftSpace opener) "```spoiler" = true
  /\ processSpoilerContent buffer =
     Some (if String.eqb (TrimRightSpace closer) "```"
              && negb (existsb fenceLine body)
           then (eachLine (TrimLeftSpace opener :: body) ++ "```", true)
           else (buffer, false)).
Proof.
  intros Hno Hnb Hnc Hop Hbody Hcl Htail buffer.
  destruct (fence_TrimLeftSpace opener "spoiler" Hop) as [Hfirst _].
  assert (Hlines : Split (TrimSpace buffer) nl =
            (TrimLeftSpace opener :: body ++ [TrimRightSpace closer])%list).
  { unfold buffer. cbn [eachLine].
    rewrite (TrimSpace_block opener (NL ++ eachLine body) closer tail)
      by assumption.
    rewrite !append_assoc.
    change (TrimLeftSpace opener ++ NL ++ eachLine body ++ TrimRightSpace closer)
      with (TrimLeftSpace opener ++ NL
            ++ (eachLine body ++ TrimRightSpace closer)).
    rewrite Split_line, Split_eachLine; [reflexivity|assumption| |].
    - destruct (TrimRightSpace_prefix closer) as [w Hw].
      rewrite Hw, hasByte_app in Hnc. now apply orb_false_iff in Hnc.
    - destruct (TrimLeftSpace_suffix _ opener (le_n _)) as [w Hw].
      rewrite Hw, hasByte_app in Hno. now apply orb_false_iff in Hno. }
  split; [exact Hlines|]. split; [exact Hfirst|].
  rewrite (processSpoilerContent_lines buffer _ _ body Hlines Hfirst).
  destruct (String.eqb (TrimRightSpace closer) "```") eqn:Elast;
    cbn [negb andb]; [|reflexivity].
  apply String.eqb_eq in Elast. unfold nestedLines.
  destruct (existsb fenceLine body) eqn:Ef; cbn [negb].
  - destruct (nestedLines_unclosed buffer body 0
                (mkNested (TrimLeftSpace opener ++ NL) false 0)
                eq_refl eq_refl Hbody Ef) as [s' [Hs' Hin]].
    rewrite Hs'. cbn [flow_bind]. rewrite Hin. reflexivity.
  - rewrite nestedLines_text by (auto; reflexivity).
    cbn [flow_bind inNestedCode fenceBalance nresult orb negb Z.eqb call].
    rewrite Elast. cbn [eachLine]. now rewrite !append_assoc.
Qed.

(** ** Spoilers in the scan *)

(** Inside a spoiler the lines are collected in the buffer. *)
Lemma rangeLoop_spoiler_collects (md : string) (numLines : Z) :
  forall (lines : list string) (i : Z) (s : scan),
    inSpoiler s = true ->
    (forall l, In l lines -> TrimSpace l <> "```") ->
    rangeLoop i lines (scanBody md numLines) s =
    Next (mkScan (result s) (spoilerContent s ++ emitted numLines i lines)
                 true (inTopLevelCode s)).
Proof.
  induction lines as [|l lines IH]; intros i s Hs Hn.
  - destruct s as [r c sp tl]. cbn in *. subst. now rewrite append_nil_r.
  - cbn [rangeLoop]. rewrite scanBody_spoiler_stays by (auto; apply Hn; now left).
    cbn [flow_bind]. rewrite IH; [|reflexivity|intros x Hx; apply Hn; now right].
    cbn [result spoilerContent inTopLevelCode emitted].
    now rewrite append_assoc.
Qed.

(** The scan from a spoiler opener through the closing fence: the buffer goes
    to [processSpoilerContent], whose answer decides. *)
Lemma scan_spoiler_block (d : string) (i : Z) (opener closer : string)
    (body : list string) (s : scan) :
  outside s ->
  HasPrefix (TrimSpace opener) "```spoiler" = true ->
  (forall l, In l body -> TrimSpace l <> "```") ->
  TrimSpace closer = "```" ->
  let numLines := len (Split d nl) in
  let buffer := emitted numLines i ((opener :: body) ++ [closer]) in
  rangeLoop i ((opener :: body) ++ [closer]) (scanBody d numLines) s =
  match processSpoilerContent buffer with
  | Some (processed, true) =>
      Next (mkScan (result s ++ processed) buffer false false)
  | Some (_, false) => Return (d, false)
  | None => Panic
  end.
Proof.
  intros Hout Hop Hbody Hcl numLines buffer.
  rewrite rangeLoop_app. cbn [rangeLoop].
  rewrite scanBody_open_spoiler by assumption. cbn [flow_bind].
  rewrite rangeLoop_spoiler_collects by (auto; reflexivity).
  cbn [flow_bind result spoilerContent inTopLevelCode].
  unfold scanBody. cbn [inSpoiler spoilerContent result inTopLevelCode].
  rewrite Hcl. cbn [String.eqb Ascii.eqb Bool.eqb].
  replace (withNewline numLines i opener
           ++ emitted numLines (i + 1) body)
    with (emitted numLines i (opener :: body)) by reflexivity.
  replace ((emitted numLines i (opener :: body))
           ++ withNewline numLines (i + len (opener :: body)) closer)
    with buffer
    by (unfold buffer; rewrite emitted_app; cbn [emitted];
        now rewrite append_nil_r).
  destruct (processSpoilerContent buffer) as [[p [|]]|]; reflexivity.
Qed.

(** The scan of a whole spoiler met [Outside].  It goes on only when the
    closing fence is not indented and no interior line is a fence; the
    spoiler is then written without the indentation of its opener, without
    the white space after its closing fence, and without the newline that
    follows it in the input. *)
Theorem spoiler_block_scan (d : string) (pre body post : list string)
    (opener closer : string) (s : scan) :
  Split d nl = (pre ++ opener :: body ++ closer :: post)%list ->
  scanPrefix d pre = Next s ->
  outside s ->
  HasPrefix (TrimSpace opener) "```spoiler" = true ->
  (forall l, In l body -> TrimSpace l <> "```") ->
  TrimSpace closer = "```" ->
  let buffer := eachLine (opener :: body) ++ closer
                ++ match post with [] => EmptyString | _ => NL end in
  scanPrefix d (pre ++ (opener :: body) ++ [closer]) =
    if String.eqb (TrimRightSpace closer) "```"
       && negb (existsb fenceLine body)
    then Next (mkScan (result s ++ eachLine (TrimLeftSpace opener :: body)
                                ++ "```")
                      buffer false false)
    else Return (d, false).
Proof.
  intros Hsplit Hpre Hout Hop Hbody Hcl buffer.
  assert (Hlen : len (Split d nl) =
                 len pre + 1 + len body + 1 + len post).
  { rewrite Hsplit, len_app, len_cons, len_app, len_cons. lia. }
  pose proof (len_nonneg pre) as Hp0. pose proof (len_nonneg body) as Hb0.
  assert (Hno : forall l, In l (opener :: body ++ closer :: post) ->
                          hasByte nl l = false).
  { intros l Hl. apply (Split_lines_no_newline d). rewrite Hsplit.
    apply in_or_app. now right. }
  assert (Hbuf : emitted (len (Split d nl)) (len pre)
                   ((opener :: body) ++ [closer]) = buffer).
  { rewrite emitted_app, emitted_eachLine
      by (rewrite Hlen, len_cons; pose proof (len_nonneg post); lia).
    unfold buffer. f_equal. cbn [emitted]. rewrite append_nil_r.
    rewrite Hlen, len_cons. unfold withNewline.
    destruct post as [|p post].
    - change (len (@nil string)) with 0.
      replace (_ <? _) with false by (symmetry; apply Z.ltb_ge; lia).
      now rewrite append_nil_r.
    - rewrite (len_cons p). pose proof (len_nonneg post).
      now replace (_ <? _) with true by (symmetry; apply Z.ltb_lt; lia). }
  rewrite scanPrefix_app, Hpre. cbn [flow_bind].
  rewrite scan_spoiler_block by assumption. rewrite Hbuf.
  destruct (processSpoilerContent_scan_buffer opener closer
              (match post with [] => EmptyString | _ => NL end) body)
    as [_ [_ Hp]]; try assumption.
  - apply Hno. now left.
  - intros l Hl. apply Hno. right. apply in_or_app. now left.
  - apply Hno. right. apply in_or_app. right. now left.
  - destruct post; [now left | now right].
  - fold buffer in Hp. rewrite Hp.
    now destruct (String.eqb (TrimRightSpace closer) "```"
                  && negb (existsb fenceLine body)).
Qed.

Lemma block_then_rest (pre body post : list string) (opener closer : string) :
  (pre ++ opener :: body ++ closer :: post)%list =
  ((pre ++ (opener :: body) ++ [closer]) ++ post)%list.
Proof.
  rewrite <- !app_assoc. reflexivity.
Qed.

(** No spoiler that holds a fence line goes through: the nested block it
    opens would have to be closed by a bare fence, and the first bare fence
    ends the buffer. *)
Theorem nested_block_in_spoiler_fails (d : string)
    (pre body post : list string) (opener closer : string) (s : scan) :
  Split d nl = (pre ++ opener :: body ++ closer :: post)%list ->
  scanPrefix d pre = Next s ->
  outside s ->
  HasPrefix (TrimSpace opener) "```spoiler" = true ->
  (forall l, In l body -> TrimSpace l <> "```") ->
  TrimSpace closer = "```" ->
  existsb fenceLine body = true ->
  _EscapeMarkdown d = Some (d, false).
Proof.
  intros Hsplit Hpre Hout Hop Hbody Hcl Hf.
  pose proof (spoiler_block_scan d pre body post opener closer s
                Hsplit Hpre Hout Hop Hbody Hcl) as Hscan.
  cbv zeta in Hscan. rewrite Hf, andb_false_r in Hscan.
  unfold _EscapeMarkdown, _EscapeMarkdown_body.
  rewrite scanLines_prefix, Hsplit, block_then_rest, scanPrefix_app, Hscan.
  reflexivity.
Qed.

(** The documented example is an instance. *)
Lemma nested_block_in_spoiler_fails_witness :
  _EscapeMarkdown nested_example = Some (nested_example, false).
Proof.
  apply (nested_block_in_spoiler_fails nested_example []
           ["```go"; "fmt.Println(" ++ DQ ++ "Hello" ++ DQ ++ ")"]
           ["```"] "```spoiler Code Example" "```" scan0).
  - reflexivity.
  - reflexivity.
  - split; reflexivity.
  - reflexivity.
  - intros l [Hl|[Hl|[]]]; subst l; vm_compute; discriminate.
  - reflexivity.
  - reflexivity.
Defined.

(** No spoiler whose closing fence is indented goes through: the check on
    the last line of the buffer fails. *)
Theorem indented_closer_fails (d : string)
    (pre body post : list string) (opener closer : string) (s : scan) :
  Split d nl = (pre ++ opener :: body ++ closer :: post)%list ->
  scanPrefix d pre = Next s ->
  outside s ->
  HasPrefix (TrimSpace opener) "```spoiler" = true ->
  (forall l, In l body -> TrimSpace l <> "```") ->
  TrimSpace closer = "```" ->
  TrimRightSpace closer <> "```" ->
  _EscapeMarkdown d = Some (d, false).
Proof.
  intros Hsplit Hpre Hout Hop Hbody Hcl Hind.
  pose proof (spoiler_block_scan d pre body post opener closer s
                Hsplit Hpre Hout Hop Hbody Hcl) as Hscan.
  cbv zeta in Hscan. apply String.eqb_neq in Hind.
  rewrite Hind in Hscan. cbn [andb] in Hscan.
  unfold _EscapeMarkdown, _EscapeMarkdown_body.
  rewrite scanLines_prefix, Hsplit, block_then_rest, scanPrefix_app, Hscan.
  reflexivity.
Qed.

Lemma indented_closer_fails_witness :
  _EscapeMarkdown (doc ["```spoiler T"; "x"; " ```"])
  = Some (doc ["```spoiler T"; "x"; " ```"], false).
Proof.
  apply (indented_closer_fails (doc ["```spoiler T"; "x"; " ```"]) []
           ["x"] [] "```spoiler T" " ```" scan0).
  - reflexivity.
  - reflexivity.
  - split; reflexivity.
  - reflexivity.
  - intros l [Hl|[]]; subst l; vm_compute; discriminate.
  - reflexivity.
  - vm_compute. discriminate.
Defined.

(** A spoiler that goes through and is followed by plain text: the text
    follows the closing fence on the same line. *)
Theorem spoiler_then_text_loses_newline (d : string)
    (pre body post : list string) (opener closer : string) (s : scan) :
  Split d nl = (pre ++ opener :: body ++ closer :: post)%list ->
  scanPrefix d pre = Next s ->
  outside s ->
  HasPrefix (TrimSpace opener) "```spoiler" = true ->
  (forall l, In l body -> TrimSpace l <> "```") ->
  TrimSpace closer = "```" ->
  TrimRightSpace closer = "```" ->
  existsb fenceLine body = false ->
  post <> [] ->
  (forall l, In l post -> HasPrefix (TrimSpace l) "```" = false) ->
  _EscapeMarkdown d =
  Some (result s ++ Join (TrimLeftSpace opener :: body ++ ["```" ++ hd EmptyString post]
                          ++ tl post) NL, true).
Proof.
  intros Hsplit Hpre Hout Hop Hbody Hcl Hbare Hf Hpost Hplain.
  pose proof (spoiler_block_scan d pre body post opener closer s
                Hsplit Hpre Hout Hop Hbody Hcl) as Hscan.
  cbv zeta in Hscan. rewrite Hf, Hbare in Hscan.
  cbn [String.eqb Ascii.eqb Bool.eqb andb negb] in Hscan.
  unfold _EscapeMarkdown, _EscapeMarkdown_body.
  rewrite scanLines_prefix, Hsplit, block_then_rest, scanPrefix_app, Hscan.
  cbn [flow_bind].
  rewrite rangeLoop_plain by (try split; auto).
  cbn [flow_bind call result inSpoiler inTopLevelCode orb].
  do 2 f_equal. rewrite !append_assoc. f_equal.
  replace (len (Split d nl))
    with (len (pre ++ (opener :: body) ++ [closer]) + len post)
    by (now rewrite Hsplit, block_then_rest, (len_app (pre ++ _))).
  rewrite emitted_Join by assumption.
  destruct post as [|p post]; [contradiction|]. cbn [hd tl].
  change (TrimLeftSpace opener :: body ++ [("```" ++ p)%string] ++ post)%list
    with ((TrimLeftSpace opener :: body) ++ ("```" ++ p)%string :: post)%list.
  clear. induction (TrimLeftSpace opener :: body) as [|x xs IH].
  - cbn [eachLine app append]. destruct post as [|q post]; [reflexivity|].
    rewrite !Join_cons by discriminate. reflexivity.
  - cbn [eachLine app].
    rewrite (Join_cons x (xs ++ _)) by (destruct xs; cbn; discriminate).
    now rewrite <- IH, !append_assoc.
Qed.

Lemma spoiler_then_text_loses_newline_witness :
  _EscapeMarkdown (doc ["```spoiler T"; "x"; "```"; "after"])
  = Some (doc ["```spoiler T"; "x"; "```after"], true).
Proof.
  apply (spoiler_then_text_loses_newline
           (doc ["```spoiler T"; "x"; "```"; "after"]) []
           ["x"] ["after"] "```spoiler T" "```" scan0).
  - reflexivity.
  - reflexivity.
  - split; reflexivity.
  - reflexivity.
  - intros l [Hl|[]]; subst l; vm_compute; discriminate.
  - reflexivity.
  - reflexivity.
  - reflexivity.
  - discriminate.
  - intros l [Hl|[]]; subst l; reflexivity.
Defined.

(** ** Documents that go through unchanged or are rejected *)

(** A spoiler that holds no fence and ends the input is returned as it
    is. *)
Example balanced_spoiler_unchanged :
  _EscapeMarkdown (doc ["```spoiler Title"; "line one"; "line two"; "```"])
  = Some (doc ["```spoiler Title"; "line one"; "line two"; "```"], true).
Proof. reflexivity. Qed.

(** A spoiler that is never closed is rejected. *)
Example unclosed_spoiler_rejected :
  _EscapeMarkdown (doc ["```spoiler Title"; "some text"])
  = Some (doc ["```spoiler Title"; "some text"], false).
Proof. reflexivity. Qed.

(** ** Where the scan and the sub-processor disagree *)

(** C1 (nested fence rewrite): the documented example.  The scan closes the
    spoiler at the first bare fence, which is the one that closes the inner
    [go] block; the buffer handed to [processSpoilerContent] thus ends inside
    the nested block, the sub-processor reports failure, and
    [_EscapeMarkdown] returns the input with the flag [false] instead of the
    document with the inner fences turned into tildes. *)
Theorem nested_example_fails :
  scanPrefix nested_example
    ["```spoiler Code Example"; "```go";
     "fmt.Println(" ++ DQ ++ "Hello" ++ DQ ++ ")"]
  = Next (mkScan EmptyString
            (doc ["```spoiler Code Example"; "```go";
                  "fmt.Println(" ++ DQ ++ "Hello" ++ DQ ++ ")"; EmptyString])
            true false)
  /\ processSpoilerContent
       (doc ["```spoiler Code Example"; "```go";
             "fmt.Println(" ++ DQ ++ "Hello" ++ DQ ++ ")"; "```"; EmptyString])
     = Some (doc ["```spoiler Code Example"; "```go";
                  "fmt.Println(" ++ DQ ++ "Hello" ++ DQ ++ ")"; "```";
                  EmptyString], false)
  /\ _EscapeMarkdown nested_example = Some (nested_example, false)
  /\ _EscapeMarkdown nested_example <> Some (nested_example_rewritten, true).
Proof.
  split; [reflexivity|]. split; [reflexivity|]. split; [reflexivity|].
  vm_compute. discriminate.
Qed.

(** The sub-processor does rewrite the example when it is handed the whole
    spoiler, which the scan never does. *)
Example processSpoilerContent_nested_example :
  processSpoilerContent nested_example = Some (nested_example_rewritten, true).
Proof. reflexivity. Qed.

(** C4 (newline structure): a spoiler that is followed by a line of text.
    The newline after the closing fence of the spoiler is in the buffer, is
    trimmed away by the sub-processor and is not written again: the text
    returned, with the flag [true], has one newline less than the input and
    the closing fence and the next line have become one line. *)
Theorem newline_after_spoiler_is_lost :
  _EscapeMarkdown (doc ["```spoiler T"; "x"; "```"; "after"])
  = Some (doc ["```spoiler T"; "x"; "```after"], true)
  /\ len (Split (doc ["```spoiler T"; "x"; "```"; "after"]) nl) = 4
  /\ len (Split (doc ["```spoiler T"; "x"; "```after"]) nl) = 3.
Proof. repeat split; reflexivity. Qed.

(** C5 (idempotence): a spoiler that is followed by a blank line and a line
    of text.  The first run succeeds and loses the newline after the closing
    fence; on its output the second run succeeds too and loses the next
    newline, so its text differs from the text of the first run. *)
Theorem escape_not_idempotent :
  _EscapeMarkdown (doc ["```spoiler T"; "```"; EmptyString; "x"])
  = Some (doc ["```spoiler T"; "```"; "x"], true)
  /\ _EscapeMarkdown (doc ["```spoiler T"; "```"; "x"])
     = Some (doc ["```spoiler T"; "```x"], true)
  /\ doc ["```spoiler T"; "```x"] <> doc ["```spoiler T"; "```"; "x"].
Proof.
  split; [reflexivity|]. split; [reflexivity|]. vm_compute. discriminate.
Qed.

(** C9 (the defensive check): a spoiler whose closing fence is indented.
    The scan compares the trimmed line with the fence and hands over the
    buffer; the sub-processor compares the last line of the trimmed buffer,
    which keeps its indentation, and takes the return that rejects a buffer
    not ending with a bare fence. *)
Theorem indented_closer_reaches_defensive_check :
  scanPrefix (doc ["```spoiler T"; "x"; " ```"]) ["```spoiler T"; "x"]
  = Next (mkScan EmptyString (doc ["```spoiler T"; "x"; EmptyString])
                 true false)
  /\ TrimSpace " ```" = "```"
  /\ Split (TrimSpace (doc ["```spoiler T"; "x"; " ```"])) nl
     = ["```spoiler T"; "x"; " ```"]
  /\ spoilerShape (doc ["```spoiler T"; "x"; " ```"]) = false
  /\ processSpoilerContent (doc ["```spoiler T"; "x"; " ```"])
     = Some (doc ["```spoiler T"; "x"; " ```"], false)
  /\ _EscapeMarkdown (doc ["```spoiler T"; "x"; " ```"])
     = Some (doc ["```spoiler T"; "x"; " ```"], false).
Proof. repeat split; reflexivity. Qed.

(** ** The sub-processor on its own *)

Lemma eachLine_app (xs ys : list string) :
  eachLine (xs ++ ys) = eachLine xs ++ eachLine ys.
Proof.
  induction xs as [|x xs IH]; [reflexivity|].
  cbn [app eachLine]. now rewrite IH, !append_assoc.
Qed.

Lemma Join_eachLine (xs : list string) (c : string) :
  Join (xs ++ [c]) NL = eachLine xs ++ c.
Proof.
  induction xs as [|x xs IH]; [reflexivity|].
  cbn [app eachLine].
  rewrite (Join_cons x (xs ++ [c])) by (destruct xs; discriminate).
  now rewrite IH, !append_assoc.
Qed.

(** [processSpoilerContent] returns on every block; when it fails it returns
    the block itself, and a block of white space yields the empty text. *)
Theorem processSpoilerContent_failure_returns_block (block : string) :
  (exists r, processSpoilerContent block = Some r)
  /\ (forall t, processSpoilerContent block = Some (t, false) -> t = block)
  /\ (TrimSpace block = EmptyString ->
      processSpoilerContent block = Some (EmptyString, true)).
Proof.
  destruct (processSpoilerContent_returns block) as [t [ok [H Hf]]].
  split; [eauto|]. split.
  - intros t' Ht'. rewrite H in Ht'. injection Ht' as Ht Hok. subst t'.
    now apply Hf.
  - intros Hb. unfold processSpoilerContent, processSpoilerContent_body.
    now rewrite Hb.
Qed.

Lemma processSpoilerContent_failure_returns_block_witness :
  processSpoilerContent "no fence" = Some ("no fence", false)
  /\ "no fence" = "no fence"
  /\ processSpoilerContent "  " = Some (EmptyString, true).
Proof.
  split; [reflexivity|]. split.
  - apply (proj1 (proj2 (processSpoilerContent_failure_returns_block
                           "no fence"))).
    reflexivity.
  - apply (proj2 (proj2 (processSpoilerContent_failure_returns_block "  "))).
    reflexivity.
Defined.

Lemma nestedLine_balanced (block line : string) (s : nested) :
  balanced s ->
  exists s', nestedLine block line s = Next s' /\ balanced s'.
Proof.
  unfold balanced, nestedLine.
  intros [[Hn Hb]|[Hn Hb]]; rewrite Hn, Hb; cbn [negb Z.eqb].
  - destruct (HasPrefix (TrimSpace line) "```"); cbn [flow_bind];
      eexists; (split; [reflexivity|]); cbn; auto.
  - destruct (String.eqb (TrimSpace line) "```"); cbn [flow_bind];
      eexists; (split; [reflexivity|]); cbn; auto.
Qed.

Lemma forCount_balanced (block : string) (lines : list string) :
  forall (k : nat) (i : Z) (s : nested),
    0 <= i -> i + Z.of_nat k <= len lines -> balanced s ->
    exists s', forCount k i (nestedBody block lines) s = Next s'
               /\ balanced s'.
Proof.
  induction k as [|k IH]; intros i s Hlo Hhi Hs.
  - exists s. split; [reflexivity | assumption].
  - cbn [forCount]. unfold nestedBody at 1.
    destruct (index_in_range lines i ltac:(lia)) as [line [Hline _]].
    rewrite Hline. cbn [flow_bind].
    destruct (nestedLine_balanced block line s Hs) as [s1 [H1 Hb1]].
    rewrite H1. cbn [flow_bind]. apply IH; [lia | lia | assumption].
Qed.

(** The loop of [processSpoilerContent] never returns and never panics:
    [fenceBalance] mirrors [inNestedCode], so neither of its two checks of
    [fenceBalance] can fail, whatever the lines are.  A bare fence met outside
    a nested block opens one. *)
Theorem nested_loop_never_returns (block first : string)
    (lines : list string) :
  exists s,
    forRange 1 (len lines - 1) (nestedBody block lines)
             (mkNested (first ++ NL) false 0) = Next s
    /\ balanced s.
Proof.
  unfold forRange.
  assert (Hs : balanced (mkNested (first ++ NL) false 0))
    by (left; split; reflexivity).
  destruct (Z.to_nat (len lines - 1 - 1)) as [|k] eqn:E.
  - eexists. split; [reflexivity | exact Hs].
  - rewrite <- E. apply forCount_balanced; [lia | lia | exact Hs].
Qed.

Lemma TrimLeftSpace_backquote (t : string) :
  TrimLeftSpace (String "`" t) = String "`" t.
Proof.
  cbn [TrimLeftSpace]. change (isSpace1 "`") with false. cbv iota.
  destruct t as [|c2 t]; [reflexivity|].
  rewrite (proj1 (backquote_no_space2 c2)).
  destruct t as [|c3 t]; [reflexivity|].
  now rewrite (proj1 (backquote_no_space3 c2 c3)).
Qed.

Lemma trimRev_backquote (r : list ascii) :
  trimRev ("`"%char :: r) = "`"%char :: r.
Proof.
  cbn [trimRev]. change (isSpace1 "`") with false. cbv iota.
  destruct r as [|c2 r]; [reflexivity|].
  rewrite (proj2 (backquote_no_space2 c2)).
  destruct r as [|c3 r]; [reflexivity|].
  now rewrite (proj2 (backquote_no_space3 c3 c2)).
Qed.

Lemma TrimRightSpace_backquote (u : string) :
  TrimRightSpace (u ++ "`") = u ++ "`".
Proof.
  unfold TrimRightSpace.
  rewrite list_ascii_of_string_app, rev_app_distr.
  cbn [list_ascii_of_string rev app]. rewrite trimRev_backquote.
  change ("`"%char :: rev (list_ascii_of_string u))
    with (rev ["`"%char] ++ rev (list_ascii_of_string u))%list.
  rewrite <- rev_app_distr, rev_involutive, string_of_list_ascii_app.
  now rewrite string_of_list_ascii_of_string.
Qed.

(** A text between backquotes has no white space to trim. *)
Lemma TrimSpace_fenced (t u : string) :
  String "`" t = u ++ "`" -> TrimSpace (String "`" t) = String "`" t.
Proof.
  intros H. unfold TrimSpace. rewrite TrimLeftSpace_backquote, H.
  apply TrimRightSpace_backquote.
Qed.

Lemma nestedLine_closes (block line : string) (s : nested) :
  inNestedCode s = true -> fenceBalance s = 1 -> TrimSpace line = "```" ->
  nestedLine block line s = Next (mkNested ((nresult s ++ "~~~") ++ NL) false 0).
Proof.
  unfold nestedLine. intros Hs Hb Hl. now rewrite Hs, Hb, Hl.
Qed.

(** Inside a nested block the lines are copied until a bare fence. *)
Lemma nestedLines_code (block : string) (code : list string) :
  forall (i : Z) (s : nested),
    inNestedCode s = true ->
    (forall l, In l code -> TrimSpace l <> "```") ->
    rangeLoop i code (fun _ line => nestedLine block line) s
    = Next (mkNested (nresult s ++ eachLine code) true (fenceBalance s)).
Proof.
  induction code as [|l code IH]; intros i s Hs Hc.
  - cbn [rangeLoop eachLine]. rewrite append_nil_r. destruct s; cbn in *.
    now subst.
  - cbn [rangeLoop]. rewrite nestedLine_inside by (auto; apply Hc; now left).
    cbn [flow_bind]. rewrite IH; [|reflexivity|intros x Hx; apply Hc; now right].
    cbn [nresult fenceBalance eachLine]. now rewrite !append_assoc.
Qed.

(** Handed a whole spoiler (an opener line, a closing bare fence, and in
    between one nested code block among lines without fences),
    [processSpoilerContent] turns the fence that opens the nested block and
    the bare fence that closes it into tilde fences and copies every other
    line. *)
Theorem processSpoilerContent_rewrites_nested (first opener closer : string)
    (text1 code text2 : list string) :
  HasPrefix first "```spoiler" = true ->
  (forall l, In l (first :: text1 ++ opener :: code ++ closer :: text2) ->
             hasByte nl l = false) ->
  existsb fenceLine text1 = false ->
  fenceLine opener = true ->
  (forall l, In l code -> TrimSpace l <> "```") ->
  TrimSpace closer = "```" ->
  existsb fenceLine text2 = false ->
  processSpoilerContent
    (Join (first :: text1 ++ opener :: code ++ closer :: text2 ++ ["```"]) NL)
  = Some (Join (first :: text1 ++ ("~~~" ++ TrimPrefix opener "```") :: code
                ++ "~~~" :: text2 ++ ["```"]) NL, true).
Proof.
  intros Hfirst Hnl Ht1 Hop Hcode Hcl Ht2.
  set (body := (text1 ++ opener :: code ++ closer :: text2)%list).
  assert (Hin : (first :: text1 ++ opener :: code ++ closer :: text2
                 ++ ["```"])%list = ((first :: body) ++ ["```"])%list).
  { unfold body. cbn [app].
    repeat (rewrite <- app_assoc; cbn [app]). reflexivity. }
  set (tilde := "~~~" ++ TrimPrefix opener "```").
  assert (Hout : (first :: text1 ++ tilde :: code
                  ++ "~~~" :: text2 ++ ["```"])%list
                 = ((first :: text1 ++ tilde
                     :: code ++ "~~~" :: text2) ++ ["```"])%list).
  { cbn [app]. repeat (rewrite <- app_assoc; cbn [app]). reflexivity. }
  rewrite Hin, Hout, !Join_eachLine.
  set (block := eachLine (first :: body) ++ "```").
  assert (Htrim : TrimSpace block = block).
  { unfold block. rewrite (HasPrefix_drop _ _ Hfirst). cbn [eachLine append].
    apply (TrimSpace_fenced _ (eachLine (first :: body) ++ "``")).
    rewrite (HasPrefix_drop _ _ Hfirst) at 2. cbn [eachLine append].
    now rewrite !append_assoc. }
  assert (Hlines : Split (TrimSpace block) nl
                   = (first :: body ++ ["```"])%list).
  { rewrite Htrim. unfold block. rewrite Split_eachLine; auto. }
  rewrite (processSpoilerContent_lines block first "```" body Hlines Hfirst).
  cbn [String.eqb Ascii.eqb Bool.eqb negb].
  unfold nestedLines, body.
  rewrite rangeLoop_app, nestedLines_text by (auto; reflexivity).
  cbn [flow_bind rangeLoop].
  rewrite nestedLine_opens by (auto; reflexivity).
  cbn [flow_bind]. rewrite rangeLoop_app, nestedLines_code
    by (auto; reflexivity).
  cbn [flow_bind rangeLoop fenceBalance nresult].
  rewrite nestedLine_closes by (auto; reflexivity).
  cbn [flow_bind]. rewrite nestedLines_text by (auto; reflexivity).
  cbn [flow_bind inNestedCode fenceBalance nresult orb negb Z.eqb call].
  do 2 f_equal.
  cbn [eachLine]. rewrite !eachLine_app. cbn [eachLine].
  rewrite !eachLine_app. cbn [eachLine].
  now rewrite !append_assoc.
Qed.

(** The documented nested block, with some text around it. *)
Lemma processSpoilerContent_rewrites_nested_witness :
  processSpoilerContent
    (doc ["```spoiler Code"; "before"; "```go"; "x := 1"; "```"; "after";
          "```"])
  = Some (doc ["```spoiler Code"; "before"; "~~~go"; "x := 1"; "~~~"; "after";
               "```"], true).
Proof.
  apply (processSpoilerContent_rewrites_nested
           "```spoiler Code" "```go" "```" ["before"] ["x := 1"] ["after"]).
  - reflexivity.
  - intros l Hl. cbn in Hl.
    repeat (destruct Hl as [Hl|Hl]; [subst l; reflexivity|]). destruct Hl.
  - reflexivity.
  - reflexivity.
  - intros l [Hl|[]]; subst l; vm_compute; discriminate.
  - reflexivity.
  - reflexivity.
Defined.

(** ** Documents without spoilers *)

Lemma rangeLoop_no_spoiler (md : string) (numLines : Z) :
  forall (lines : list string) (i : Z) (s : scan),
    inSpoiler s = false ->
    (forall l, In l lines -> HasPrefix (TrimSpace l) "```spoiler" = false) ->
    exists inCode,
      rangeLoop i lines (scanBody md numLines) s =
      Next (mkScan (result s ++ emitted numLines i lines) (spoilerContent s)
                   false inCode).
Proof.
  induction lines as [|l lines IH]; intros i s Hs Hl.
  - exists (inTopLevelCode s). destruct s as [r c sp tl]. cbn in *. subst.
    now rewrite append_nil_r.
  - assert (Hstep : exists inCode,
              scanBody md numLines i l s =
              Next (mkScan (result s ++ withNewline numLines i l)
                           (spoilerContent s) false inCode)).
    { unfold scanBody. rewrite Hs, (Hl l) by now left.
      destruct (inTopLevelCode s).
      - destruct (String.eqb (TrimSpace l) "```"); eauto.
      - destruct (HasPrefix (TrimSpace l) "```"); eauto. }
    destruct Hstep as [b Hstep]. cbn [rangeLoop]. rewrite Hstep.
    cbn [flow_bind].
    destruct (IH (i + 1)
                (mkScan (result s ++ withNewline numLines i l)
                        (spoilerContent s) false b) eq_refl) as [b' Hb'].
    { intros x Hx. apply Hl. now right. }
    exists b'. rewrite Hb'. cbn [result spoilerContent emitted].
    now rewrite append_assoc.
Qed.

(** A document in which no line has a trimmed form starting with the spoiler
    opener is never changed by [_EscapeMarkdown], whatever fences it holds;
    only the flag tells whether its code blocks are closed. *)
Theorem escape_without_spoiler_keeps_text (d : string) :
  (forall l, In l (Split d nl) ->
             HasPrefix (TrimSpace l) "```spoiler" = false) ->
  exists ok, _EscapeMarkdown d = Some (d, ok).
Proof.
  intros Hl.
  destruct (rangeLoop_no_spoiler d (len (Split d nl)) (Split d nl) 0 scan0
              eq_refl Hl) as [b Hb].
  unfold _EscapeMarkdown, _EscapeMarkdown_body, scanLines. rewrite Hb.
  cbn [flow_bind inSpoiler inTopLevelCode orb result scan0].
  destruct b; cbn [call]; [now exists false|].
  exists true. do 2 f_equal. cbn [append].
  change (len (Split d nl)) with (0 + len (Split d nl)).
  rewrite emitted_Join by apply Split_not_nil. apply Join_Split.
Qed.

(** Two code blocks, the second one holding a fence with a language. *)
Lemma escape_without_spoiler_keeps_text_witness :
  exists ok,
    _EscapeMarkdown (doc ["```go"; "x"; "```"; "```"; " ```py"; "```"])
    = Some (doc ["```go"; "x"; "```"; "```"; " ```py"; "```"], ok).
Proof.
  apply (escape_without_spoiler_keeps_text
           (doc ["```go"; "x"; "```"; "```"; " ```py"; "```"])).
  intros l Hl. cbn in Hl.
  repeat (destruct Hl as [Hl|Hl]; [subst l; reflexivity|]). destruct Hl.
Defined.

(** ** The scan on what [Spoiler] builds *)

Lemma low_byte_no_space (c : ascii) :
  (nat_of_ascii c < 128)%nat ->
  forall a b,
    isSpace2 c a = false /\ isSpace2 a c = false
    /\ isSpace3 c a b = false /\ isSpace3 a c b = false
    /\ isSpace3 a b c = false.
Proof.
  intros Hc a b.
  assert (E : forall k, (128 <= k)%nat -> (nat_of_ascii c =? k)%nat = false)
    by (intros k Hk; apply Nat.eqb_neq; lia).
  assert (L : (128 <=? nat_of_ascii c)%nat = false)
    by (apply Nat.leb_gt; lia).
  unfold isSpace2, isSpace3. cbv zeta.
  rewrite !E by lia. rewrite L.
  repeat split; cbn [andb orb]; rewrite ?andb_false_r; reflexivity.
Qed.

(** Trimming from the end stops at a byte below 128 that is no white
    space. *)
Lemma trimRev_stops (c : ascii) (y : list ascii) :
  (nat_of_ascii c < 128)%nat -> isSpace1 c = false ->
  forall (n : nat) (r : list ascii),
    (List.length r <= n)%nat ->
    exists r', trimRev (r ++ c :: y) = (r' ++ c :: y)%list.
Proof.
  intros Hc Hsp.
  assert (Hlow := low_byte_no_space c Hc).
  assert (Hstop : trimRev (c :: y) = c :: y).
  { cbn [trimRev]. rewrite Hsp.
    destruct y as [|c2 y]; [reflexivity|].
    rewrite (proj1 (proj2 (Hlow c2 c2))).
    destruct y as [|c3 y]; [reflexivity|].
    now rewrite (proj2 (proj2 (proj2 (proj2 (Hlow c3 c2))))). }
  induction n as [|n IH]; intros r Hn.
  - destruct r; [|simpl in Hn; lia]. exists []. exact Hstop.
  - destruct r as [|c1 r1]; [exists []; exact Hstop|].
    cbn [app trimRev List.length] in *.
    destruct (isSpace1 c1); [apply IH; lia|].
    destruct r1 as [|c2 r2]; cbn [app List.length] in *.
    { rewrite (proj1 (Hlow c1 c1)).
      destruct y as [|c3 y]; [now exists [c1]|].
      rewrite (proj1 (proj2 (proj2 (proj2 (Hlow c3 c1))))).
      now exists [c1]. }
    destruct (isSpace2 c2 c1); [apply IH; lia|].
    destruct r2 as [|c3 r3]; cbn [app List.length] in *.
    { rewrite (proj1 (proj2 (proj2 (Hlow c2 c1)))). now exists [c1; c2]. }
    destruct (isSpace3 c3 c2 c1); [apply IH; lia|].
    now exists (c1 :: c2 :: c3 :: r3).
Qed.

Lemma TrimRightSpace_keeps (p x : string) (c : ascii) :
  (nat_of_ascii c < 128)%nat -> isSpace1 c = false ->
  exists y, TrimRightSpace ((p ++ String c EmptyString) ++ x)
            = (p ++ String c EmptyString) ++ y.
Proof.
  intros Hc Hsp. unfold TrimRightSpace.
  rewrite !list_ascii_of_string_app, !rev_app_distr.
  cbn [list_ascii_of_string rev app].
  destruct (trimRev_stops c (rev (list_ascii_of_string p)) Hc Hsp _
              (rev (list_ascii_of_string x)) (le_n _)) as [r' Hr'].
  rewrite Hr'. exists (string_of_list_ascii (rev r')).
  rewrite rev_app_distr. cbn [rev]. rewrite rev_involutive.
  rewrite <- app_assoc, !string_of_list_ascii_app.
  rewrite string_of_list_ascii_of_string. cbn [app string_of_list_ascii].
  now rewrite append_assoc.
Qed.

Lemma HasPrefix_app_r (a b p : string) :
  HasPrefix a p = true -> HasPrefix (a ++ b) p = true.
Proof.
  intros H. rewrite (HasPrefix_drop _ _ H), append_assoc.
  apply HasPrefix_self.
Qed.

Lemma Contains_HasPrefix (s p : string) :
  HasPrefix s p = true -> Contains s p = true.
Proof. intros H. destruct s; cbn [Contains]; now rewrite H. Qed.

Lemma Contains_app (a b p : string) :
  Contains (a ++ b) p = false ->
  Contains a p = false /\ Contains b p = false.
Proof.
  induction a as [|c a IH]; intros H.
  - split; [|exact H]. cbn [Contains]. rewrite orb_false_r.
    destruct (HasPrefix EmptyString p) eqn:E; [|reflexivity].
    apply (HasPrefix_app_r _ b) in E. apply Contains_HasPrefix in E.
    congruence.
  - cbn [append Contains] in H. apply orb_false_iff in H.
    destruct H as [Hp Hc]. destruct (IH Hc) as [Ha Hb].
    split; [|exact Hb]. cbn [Contains]. rewrite Ha, orb_false_r.
    destruct (HasPrefix (String c a) p) eqn:E; [|reflexivity].
    apply (HasPrefix_app_r _ b) in E. cbn [append] in E. congruence.
Qed.

(** A line is a part of the text it comes from. *)
Lemma Split_line_part (s l : string) :
  In l (Split s nl) -> exists a b, s = a ++ l ++ b.
Proof.
  intros Hl. apply in_split in Hl. destruct Hl as [pre [post Hs]].
  destruct (Join_middle pre [l] post NL) as [a [b Hab]]; [discriminate|].
  exists a, b. rewrite <- (Join_Split s), Hs. exact Hab.
Qed.

(** In a text without the fence token no line is a fence. *)
Lemma no_fence_no_fenceLine (s l : string) :
  Contains s "```" = false -> In l (Split s nl) -> fenceLine l = false.
Proof.
  intros Hs Hl. destruct (Split_line_part s l Hl) as [a [b Hab]].
  rewrite Hab in Hs. apply Contains_app in Hs. destruct Hs as [_ Hs].
  apply Contains_app in Hs. destruct Hs as [Hs _].
  destruct (TrimLeftSpace_suffix _ l (le_n _)) as [w Hw].
  destruct (TrimRightSpace_prefix (TrimLeftSpace l)) as [w' Hw'].
  rewrite Hw, Hw' in Hs. fold (TrimSpace l) in Hs.
  apply Contains_app in Hs. destruct Hs as [_ Hs].
  apply Contains_app in Hs. destruct Hs as [Hs _].
  unfold fenceLine. destruct (TrimSpace l); cbn [Contains] in Hs;
    now apply orb_false_iff in Hs.
Qed.

Lemma Split_app_newline (a b : string) :
  Split (a ++ NL ++ b) nl = (Split a nl ++ Split b nl)%list.
Proof.
  induction a as [|c a IH]; [reflexivity|].
  cbn [append Split]. change (a ++ String nl b) with (a ++ NL ++ b).
  rewrite IH. destruct (Ascii.eqb c nl); [reflexivity|].
  pose proof (Split_not_nil a nl) as Hne.
  destruct (Split a nl); [contradiction | reflexivity].
Qed.

Lemma eachLine_Join (xs : list string) :
  xs <> [] -> eachLine xs = Join xs NL ++ NL.
Proof.
  induction xs as [|x xs IH]; intros Hne; [contradiction|].
  destruct xs as [|x' xs]; [reflexivity|].
  rewrite Join_cons by discriminate. cbn [eachLine] in *.
  rewrite IH by discriminate. now rewrite !append_assoc.
Qed.

(** What [Spoiler] returns, in one piece. *)
Lemma Spoiler_text (heading text : string) :
  Spoiler heading text =
  ("```spoiler " ++ heading) ++ NL ++ ReplaceAll text "```" "~~~" ++ NL ++ "```".
Proof.
  unfold Spoiler, WriteSpoiler.
  destruct (Contains text "```") eqn:E.
  - now rewrite !append_assoc.
  - unfold ReplaceAll. rewrite replaceFrom_absent by assumption.
    now rewrite !append_assoc.
Qed.

(** What [Spoiler] builds with a heading of one line goes through
    [_EscapeMarkdown] unchanged and with the flag [true]: the text it wraps
    holds no fence any more. *)
Theorem escape_accepts_Spoiler (heading text : string) :
  hasByte nl heading = false ->
  _EscapeMarkdown (Spoiler heading text) = Some (Spoiler heading text, true).
Proof.
  intros Hh.
  set (opener := "```spoiler " ++ heading).
  set (t := ReplaceAll text "```" "~~~").
  assert (Ht : Contains t "```" = false) by apply replaceFrom_no_fence.
  assert (Hsp : Spoiler heading text = opener ++ NL ++ t ++ NL ++ "```")
    by apply Spoiler_text.
  assert (Hsplit : Split (Spoiler heading text) nl
                   = ([] ++ opener :: Split t nl ++ "```" :: [])%list).
  { rewrite Hsp, Split_line, Split_app_newline; [reflexivity|].
    unfold opener. now rewrite hasByte_app, Hh. }
  assert (Hop : HasPrefix (TrimSpace opener) "```spoiler" = true).
  { unfold TrimSpace, opener. cbn [append]. rewrite TrimLeftSpace_backquote.
    destruct (TrimRightSpace_keeps "```spoile" (" " ++ heading) "r")
      as [y Hy]; [cbn; lia | reflexivity |].
    cbn [append] in Hy. rewrite Hy. exact (HasPrefix_self "```spoiler" y). }
  assert (Hbody : forall l, In l (Split t nl) -> TrimSpace l <> "```").
  { intros l Hl E. pose proof (no_fence_no_fenceLine t l Ht Hl) as Hf.
    unfold fenceLine in Hf. rewrite E in Hf. discriminate Hf. }
  assert (Hnone : existsb fenceLine (Split t nl) = false).
  { destruct (existsb fenceLine (Split t nl)) eqn:E; [|reflexivity].
    apply existsb_exists in E. destruct E as [l [Hl Hf]].
    rewrite (no_fence_no_fenceLine t l Ht Hl) in Hf. discriminate Hf. }
  pose proof (spoiler_block_scan (Spoiler heading text) [] (Split t nl) []
                opener "```" scan0 Hsplit eq_refl (conj eq_refl eq_refl)
                Hop Hbody eq_refl) as Hscan.
  cbv zeta in Hscan. rewrite Hnone in Hscan.
  change (String.eqb (TrimRightSpace "```") "```" && negb false) with true
    in Hscan. cbv iota in Hscan.
  unfold _EscapeMarkdown, _EscapeMarkdown_body.
  rewrite scanLines_prefix, Hsplit.
  replace ([] ++ opener :: Split t nl ++ ["```"])%list
    with (([] ++ (opener :: Split t nl) ++ ["```"]) ++ [])%list
    by (now rewrite app_nil_r).
  rewrite scanPrefix_app, Hscan.
  cbn [flow_bind rangeLoop inSpoiler inTopLevelCode orb result call scan0
       append].
  do 2 f_equal. rewrite Hsp. cbn [eachLine].
  unfold opener. cbn [append TrimLeftSpace].
  rewrite eachLine_Join by apply Split_not_nil. rewrite Join_Split.
  now rewrite !append_assoc.
Qed.

(** A heading of one line and a text with a nested code block. *)
Lemma escape_accepts_Spoiler_witness :
  _EscapeMarkdown (Spoiler "Code" (CodeBlock "go" "x := 1"))
  = Some (Spoiler "Code" (CodeBlock "go" "x := 1"), true).
Proof.
  apply (escape_accepts_Spoiler "Code" (CodeBlock "go" "x := 1")).
  reflexivity.
Defined.

(** ** Spoilers and code blocks together *)

Lemma CodeBlock_text (language text : string) :
  CodeBlock language text = "```" ++ language ++ NL ++ text ++ NL ++ "```".
Proof.
  unfold CodeBlock, WriteCodeBlock. cbn [fst EscapeMarkdown].
  now rewrite !append_assoc.
Qed.

Lemma HasPrefix_before_newline (a b : string) :
  HasPrefix (a ++ String nl b) "```" = HasPrefix a "```".
Proof.
  destruct a as [|c1 a]; [reflexivity|]. cbn [append].
  rewrite !HasPrefix_fence. destruct (ascii_dec "`" c1); [|reflexivity].
  destruct a as [|c2 a]; [reflexivity|]. cbn [append].
  rewrite !HasPrefix_fence2. destruct (ascii_dec "`" c2); [|reflexivity].
  destruct a as [|c3 a]; [reflexivity|]. cbn [append].
  rewrite !HasPrefix_fence1. reflexivity.
Qed.

(** The replacement works line by line: no fence token spans a newline. *)
Lemma replaceFrom_absent_line (a b : string) :
  Contains a "```" = false ->
  replaceFrom O (a ++ String nl b) "```" "~~~"
  = a ++ String nl (replaceFrom O b "```" "~~~").
Proof.
  induction a as [|c a IH]; intros H; [reflexivity|].
  cbn [Contains] in H. apply orb_false_iff in H. destruct H as [Hp Hc].
  change ((String c a) ++ String nl b) with (String c (a ++ String nl b)).
  cbn [replaceFrom].
  change (String c (a ++ String nl b)) with ((String c a) ++ String nl b).
  rewrite HasPrefix_before_newline, Hp, (IH Hc). reflexivity.
Qed.

(** A code block inside a spoiler: when neither the language nor the code
    holds the fence token, [Spoiler] of a [CodeBlock] is the spoiler around
    the same block with its two fences turned into tildes. *)
Theorem Spoiler_of_CodeBlock (heading language text : string) :
  Contains language "```" = false ->
  Contains text "```" = false ->
  Spoiler heading (CodeBlock language text) =
  "```spoiler " ++ heading ++ NL
  ++ "~~~" ++ language ++ NL ++ text ++ NL ++ "~~~" ++ NL ++ "```".
Proof.
  intros Hl Ht. rewrite Spoiler_text, CodeBlock_text.
  change (ReplaceAll ("```" ++ language ++ NL ++ text ++ NL ++ "```")
                     "```" "~~~")
    with (replaceFrom O ("```" ++ (language ++ String nl (text ++ String nl "```")))
                      "```" "~~~").
  rewrite replaceFrom_fence, !replaceFrom_absent_line by assumption.
  change (replaceFrom O "```" "```" "~~~") with "~~~".
  rewrite ?append_assoc. cbn [append]. rewrite ?append_assoc. reflexivity.
Qed.

(** The nested blocks of the repository's tests. *)
Lemma Spoiler_of_CodeBlock_witness :
  Spoiler "Code Example"
          (CodeBlock "go" ("fmt.Println(" ++ DQ ++ "Hello" ++ DQ ++ ")"))
  = "```spoiler " ++ "Code Example" ++ NL
    ++ "~~~" ++ "go" ++ NL ++ ("fmt.Println(" ++ DQ ++ "Hello" ++ DQ ++ ")")
    ++ NL ++ "~~~" ++ NL ++ "```".
Proof.
  apply (Spoiler_of_CodeBlock "Code Example" "go"
           ("fmt.Println(" ++ DQ ++ "Hello" ++ DQ ++ ")")); reflexivity.
Defined.

Lemma length_append (a b : string) :
  String.length (a ++ b) = (String.length a + String.length b)%nat.
Proof. induction a as [|c a IH]; cbn; [reflexivity | now rewrite IH]. Qed.

Lemma append_cancel_l (p a b : string) : p ++ a = p ++ b -> a = b.
Proof.
  induction p as [|c p IH]; intros H; [exact H|].
  cbn [append] in H. injection H as H. now apply IH.
Qed.

Lemma append_cancel_r (a b c : string) : a ++ c = b ++ c -> a = b.
Proof.
  revert b. induction a as [|x a IH]; intros b H.
  - destruct b as [|y b]; [reflexivity|].
    apply (f_equal String.length) in H.
    rewrite !length_append in H. cbn [String.length] in H. lia.
  - destruct b as [|y b].
    + apply (f_equal String.length) in H.
      rewrite !length_append in H. cbn [String.length] in H. lia.
    + cbn [append] in H. injection H as -> H. f_equal. now apply IH.
Qed.

(** [SpoilerEscapedFence] wraps the text as it is: it builds what [Spoiler]
    builds exactly when the text holds no fence token. *)
Theorem SpoilerEscapedFence_is_Spoiler_iff (heading text : string) :
  SpoilerEscapedFence heading text = Spoiler heading text
  <-> Contains text "```" = false.
Proof.
  assert (Hesc : SpoilerEscapedFence heading text =
                 ("```spoiler " ++ heading) ++ NL ++ text ++ NL ++ "```").
  { unfold SpoilerEscapedFence, SpoilerEscaped. cbn [fst EscapeMarkdown].
    now rewrite !append_assoc. }
  rewrite Hesc, Spoiler_text. split.
  - intros H. apply append_cancel_l, append_cancel_l in H.
    rewrite <- !append_assoc in H. apply append_cancel_r in H.
    apply append_cancel_r in H.
    rewrite H. apply replaceFrom_no_fence.
  - intros H. unfold ReplaceAll. now rewrite replaceFrom_absent.
Qed.

(** A text without fences. *)
Lemma SpoilerEscapedFence_is_Spoiler_iff_witness :
  SpoilerEscapedFence "Title" "Content" = Spoiler "Title" "Content".
Proof.
  apply (proj2 (SpoilerEscapedFence_is_Spoiler_iff "Title" "Content")).
  reflexivity.
Defined.

Lemma tildes_in_place (s t : string) :
  tildes s t ->
  String.length t = String.length s
  /\ forall i, String.get i t = String.get i s
               \/ (String.get i s = Some "`"%char
                   /\ String.get i t = Some "~"%char).
Proof.
  induction 1 as [|s t H [IHl IHg]|c s t Hp H [IHl IHg]].
  - split; [reflexivity | now left].
  - split; [cbn; now rewrite IHl|].
    intros [|[|[|i]]]; cbn; auto.
  - split; [cbn; now rewrite IHl|].
    intros [|i]; cbn; auto.
Qed.

(** The replacement that [WriteSpoiler] makes works in place: the text keeps
    its length and every byte keeps its position, except backquotes that
    have become tildes. *)
Theorem spoiler_replacement_in_place (text : string) :
  let t := ReplaceAll text "```" "~~~" in
  String.length t = String.length text
  /\ (forall i, String.get i t = String.get i text
                \/ (String.get i text = Some "`"%char
                    /\ String.get i t = Some "~"%char))
  /\ ReplaceAll t "```" "~~~" = t.
Proof.
  cbv zeta.
  destruct (tildes_in_place text (ReplaceAll text "```" "~~~")) as [Hl Hg].
  { apply (replaceFrom_tildes (String.length text)). lia. }
  split; [exact Hl|]. split; [exact Hg|].
  unfold ReplaceAll at 1. apply replaceFrom_absent, replaceFrom_no_fence.
Qed.

(** ** Headings, list items and quotes *)

Lemma Repeat_in_range (s : string) (count : Z) :
  0 <= count -> Z.of_nat (String.length s) * count <= maxInt ->
  Repeat s count = Some (replicate (Z.to_nat count) s).
Proof.
  intros H0 H1. unfold Repeat.
  replace (count <? 0) with false by (symmetry; apply Z.ltb_ge; lia).
  now replace (maxInt <? _) with false by (symmetry; apply Z.ltb_ge; lia).
Qed.

(** [Heading] never panics and always writes between one and six hashes:
    the level itself when it is between 1 and 6, and one hash for every
    other level, above 6 as well as below 1. *)
Theorem Heading_level (level : Z) (text : string) :
  exists k : nat,
    Heading level text = Some (replicate k "#" ++ " " ++ text)
    /\ (1 <= k <= 6)%nat
    /\ (1 <= level <= 6 -> Z.of_nat k = level)
    /\ (level < 1 \/ 6 < level -> k = 1%nat).
Proof.
  unfold Heading.
  destruct ((level <? 1) || (6 <? level)) eqn:E.
  - exists 1%nat. split; [reflexivity|]. split; [lia|]. split; [|reflexivity].
    apply orb_true_iff in E. destruct E as [E|E];
      [apply Z.ltb_lt in E | apply Z.ltb_lt in E]; lia.
  - apply orb_false_iff in E. destruct E as [E1 E2].
    apply Z.ltb_ge in E1. apply Z.ltb_ge in E2.
    exists (Z.to_nat level).
    rewrite Repeat_in_range by (unfold maxInt; cbn [String.length]; lia).
    split; [reflexivity|]. split; [lia|]. split; lia.
Qed.

Lemma Heading_level_witness :
  exists k : nat,
    Heading 7 "Title" = Some (replicate k "#" ++ " " ++ "Title")
    /\ k = 1%nat.
Proof.
  destruct (Heading_level 7 "Title") as [k [H [_ [_ Hk]]]].
  exists k. split; [exact H | apply Hk; lia].
Defined.

(** List items: a negative level makes [ListItem] and [ChecklistItem] panic;
    otherwise the item is indented by two spaces for each level, one level
    more adds two spaces in front, and a checklist item is the list item of
    its box and text. *)
Theorem list_item_indent (text : string) (checked : bool) (level : Z) :
  (level < 0 ->
   ListItem text level = None /\ ChecklistItem text checked level = None)
  /\ (0 <= level -> 2 * (level + 1) <= maxInt ->
      ListItem text level
      = Some (replicate (Z.to_nat level) "  " ++ "- " ++ text)
      /\ (exists item, ListItem text level = Some item
                       /\ ListItem text (level + 1) = Some ("  " ++ item)))
  /\ ChecklistItem text checked level
     = ListItem ((if checked then "[x]" else "[ ]") ++ " " ++ text) level.
Proof.
  split; [|split].
  - intros H. unfold ListItem, ChecklistItem, Repeat.
    now replace (level <? 0) with true by (symmetry; apply Z.ltb_lt; lia).
  - intros H0 H1. unfold ListItem.
    rewrite !Repeat_in_range by (cbn [String.length]; lia).
    split; [reflexivity|]. eexists. split; [reflexivity|].
    replace (Z.to_nat (level + 1)) with (Datatypes.S (Z.to_nat level)) by lia.
    cbn [replicate]. now rewrite !append_assoc.
  - unfold ListItem, ChecklistItem.
    destruct (Repeat "  " level); [|reflexivity]. now destruct checked.
Qed.

Lemma list_item_indent_witness :
  ListItem "x" (-1) = None
  /\ ListItem "x" 2 = Some ("    - x")
  /\ ChecklistItem "x" true 1 = Some ("  - [x] x").
Proof.
  split; [|split].
  - apply (proj1 (list_item_indent "x" true (-1))). lia.
  - apply (proj1 (proj2 (list_item_indent "x" true 2))); unfold maxInt; lia.
  - rewrite (proj2 (proj2 (list_item_indent "x" true 1))). reflexivity.
Defined.

Lemma store_next {A : Type} (done rest : list A) (old v : A) :
  store (done ++ old :: rest)%list (len done) v
  = Some (done ++ v :: rest)%list.
Proof.
  unfold store. pose proof (len_nonneg done). pose proof (len_nonneg rest).
  rewrite len_app, len_cons.
  replace ((len done <? 0) || (len done + (1 + len rest) <=? len done))
    with false
    by (symmetry; apply orb_false_iff; split;
        [apply Z.ltb_ge | apply Z.leb_gt]; lia).
  unfold len. rewrite Nat2Z.id.
  rewrite firstn_app, firstn_all, Nat.sub_diag. cbn [firstn].
  rewrite app_nil_r.
  change (Datatypes.S (List.length done))
    with (1 + List.length done)%nat.
  rewrite <- skipn_skipn, skipn_app, skipn_all, Nat.sub_diag.
  reflexivity.
Qed.

(** Filling a slice of the length of [xs] by index, one element for each
    element of [xs], never goes out of range and yields the images in
    order. *)
Lemma rangeOpt_store_map (f : string -> string) :
  forall (xs done pad : list string),
    List.length pad = List.length xs ->
    rangeOpt (len done) xs (fun i x out => store out i (f x))
             (done ++ pad)%list
    = Some (done ++ map f xs)%list.
Proof.
  induction xs as [|x xs IH]; intros done pad Hlen.
  - destruct pad; [reflexivity | discriminate Hlen].
  - destruct pad as [|p pad]; [discriminate Hlen|].
    cbn [rangeOpt map]. rewrite store_next.
    specialize (IH (done ++ [f x])%list pad ltac:(cbn in Hlen; lia)).
    rewrite len_app in IH. change (len [f x]) with 1 in IH.
    rewrite <- !app_assoc in IH. exact IH.
Qed.

Lemma QuoteBlock_text (text : string) :
  QuoteBlock text
  = Some (eachLine (map (fun l => "> " ++ l) (Split text nl))).
Proof.
  unfold QuoteBlock, make, len. rewrite Nat2Z.id.
  pose proof (rangeOpt_store_map (fun l => "> " ++ l) (Split text nl) []
                (repeat EmptyString (List.length (Split text nl)))
                (repeat_length _ _)) as H.
  cbn [app] in H. change (len (@nil string)) with 0 in H. rewrite H.
  rewrite eachLine_Join; [reflexivity|].
  pose proof (Split_not_nil text nl). destruct (Split text nl);
    [contradiction | discriminate].
Qed.

(** [QuoteBlock] never panics; the lines of what it returns are the lines of
    the text, each behind the quote mark, and an empty last line. *)
Theorem QuoteBlock_lines (text : string) :
  exists q,
    QuoteBlock text = Some q
    /\ Split q nl
       = (map (fun l => ("> " ++ l)%string) (Split text nl)
          ++ [EmptyString])%list.
Proof.
  eexists. split; [apply QuoteBlock_text|].
  rewrite <- (append_nil_r (eachLine _)).
  apply Split_eachLine; [|reflexivity].
  intros l Hl. apply in_map_iff in Hl. destruct Hl as [x [<- Hx]].
  cbn [append hasByte Ascii.eqb Bool.eqb orb].
  change (Ascii.eqb ">" nl) with false. change (Ascii.eqb " " nl) with false.
  cbn [orb]. now apply (Split_lines_no_newline text).
Qed.

(** Quoting is done line by line: the quote of two texts joined by a
    newline is the quote of the first followed by the quote of the
    second. *)
Theorem QuoteBlock_distributes (a b : string) :
  exists qa qb,
    QuoteBlock a = Some qa /\ QuoteBlock b = Some qb
    /\ QuoteBlock (a ++ NL ++ b) = Some (qa ++ qb).
Proof.
  do 2 eexists. split; [apply QuoteBlock_text|].
  split; [apply QuoteBlock_text|].
  rewrite QuoteBlock_text, Split_app_newline, map_app, eachLine_app.
  reflexivity.
Qed.

(** ** The table builder: headers and alignments *)

Lemma countFold_snoc {A : Type} (d : A) :
  forall (k : nat) (i : Z) (xs : list A),
    countFold k i (fun _ al => (al ++ [d])%list) xs = (xs ++ repeat d k)%list.
Proof.
  induction k as [|k IH]; intros i xs.
  - cbn. now rewrite app_nil_r.
  - cbn [countFold repeat]. rewrite IH, <- app_assoc. reflexivity.
Qed.

Lemma WithHeaders_alignments (t : TableBuilder) (hs : list string) :
  alignments (WithHeaders t hs)
  = (alignments t
     ++ repeat AlignDefault
          (List.length (headers t) + List.length hs
           - List.length (alignments t)))%list.
Proof.
  unfold WithHeaders, forFold. cbn [alignments].
  rewrite countFold_snoc. do 2 f_equal.
  unfold len. rewrite length_app. lia.
Qed.

Lemma update_length {A : Type} (xs : list A) (n : nat) (v : A) :
  (n < List.length xs)%nat ->
  List.length (firstn n xs ++ v :: skipn (Datatypes.S n) xs)
  = List.length xs.
Proof.
  intros Hn. rewrite length_app, length_firstn.
  change (List.length (v :: skipn (Datatypes.S n) xs))
    with (Datatypes.S (List.length (skipn (Datatypes.S n) xs))).
  rewrite length_skipn. lia.
Qed.

Lemma store_length {A : Type} (xs ys : list A) (i : Z) (v : A) :
  store xs i v = Some ys -> List.length ys = List.length xs.
Proof.
  unfold store. destruct ((i <? 0) || (len xs <=? i)) eqn:E; [discriminate|].
  intros H. injection H as <-.
  apply orb_false_iff in E. destruct E as [E1 E2].
  apply Z.ltb_ge in E1. apply Z.leb_gt in E2. unfold len in E2.
  apply update_length. lia.
Qed.

Lemma AddRows_fields (rs : list (list string)) :
  forall (i : Z) (t : TableBuilder),
    rangeFold i rs (fun _ row t => AddRow t row) t
    = mkTable (headers t) (rows t ++ rs)%list (alignments t)
              (headerBuilder t).
Proof.
  induction rs as [|r rs IH]; intros i t.
  - cbn. rewrite app_nil_r. now destruct t.
  - cbn [rangeFold]. rewrite IH. unfold AddRow. cbn.
    now rewrite <- app_assoc.
Qed.

Lemma SetAlignments_beyond (als : list Alignment) :
  forall (i : Z) (t : TableBuilder),
    len (alignments t) <= i ->
    rangeOpt i als
      (fun i alignment t =>
         if i <? len (alignments t) then
           match store (alignments t) i alignment with
           | None => None
           | Some al =>
               Some (mkTable (headers t) (rows t) al (headerBuilder t))
           end
         else Some t) t
    = Some t.
Proof.
  induction als as [|a als IH]; intros i t Hi; [reflexivity|].
  cbn [rangeOpt].
  replace (i <? len (alignments t)) with false
    by (symmetry; apply Z.ltb_ge; lia).
  apply IH. lia.
Qed.

Lemma SetAlignments_step (als : list Alignment) :
  forall (done rest : list Alignment) (t : TableBuilder),
    alignments t = (done ++ rest)%list ->
    rangeOpt (len done) als
      (fun i alignment t =>
         if i <? len (alignments t) then
           match store (alignments t) i alignment with
           | None => None
           | Some al =>
               Some (mkTable (headers t) (rows t) al (headerBuilder t))
           end
         else Some t) t
    = Some (mkTable (headers t) (rows t)
              (done ++ firstn (List.length rest) als
               ++ skipn (List.length als) rest)%list
              (headerBuilder t)).
Proof.
  induction als as [|a als IH]; intros done rest t Ht.
  - cbn [rangeOpt firstn List.length skipn]. rewrite firstn_nil.
    cbn [app]. rewrite <- Ht. now destruct t.
  - destruct rest as [|r rest].
    + rewrite SetAlignments_beyond
        by (rewrite Ht, app_nil_r; apply Z.le_refl).
      cbn [List.length firstn]. rewrite skipn_nil. cbn [app].
      rewrite app_nil_r in *. rewrite <- Ht. now destruct t.
    + cbn [rangeOpt]. pose proof (len_nonneg rest).
      rewrite Ht.
      replace (len done <? len (done ++ r :: rest)) with true
        by (symmetry; apply Z.ltb_lt; rewrite len_app, len_cons; lia).
      rewrite store_next.
      specialize (IH (done ++ [a])%list rest
                    (mkTable (headers t) (rows t) (done ++ a :: rest)%list
                             (headerBuilder t))).
      rewrite len_app in IH. change (len [a]) with 1 in IH.
      rewrite IH by (cbn; now rewrite <- app_assoc).
      cbn [headers rows headerBuilder List.length firstn skipn].
      now rewrite <- !app_assoc.
Qed.

(** One alignment for each header: a new builder has none of either, and
    every method keeps the two slices of the same length. *)
Theorem table_stays_aligned (t : TableBuilder) (hs cells : list string)
    (rs : list (list string)) (styleFunc : string -> string)
    (column : Z) (alignment : Alignment) (als : list Alignment) :
  aligned t ->
  aligned NewTableBuilder
  /\ aligned (WithHeaders t hs)
  /\ aligned (AddRow t cells)
  /\ aligned (AddRows t rs)
  /\ aligned (WithHeaderStyle t styleFunc)
  /\ aligned (WithBoldHeaders t)
  /\ (exists t', SetAlignment t column alignment = Some t' /\ aligned t')
  /\ (exists t', SetAlignments t als = Some t' /\ aligned t').
Proof.
  unfold aligned. intros Ht.
  split; [reflexivity|]. split.
  { rewrite WithHeaders_alignments. unfold WithHeaders. cbn [headers].
    rewrite !length_app, repeat_length. lia. }
  split; [exact Ht|]. split.
  { unfold AddRows. rewrite AddRows_fields. exact Ht. }
  split; [exact Ht|]. split; [exact Ht|]. split.
  - unfold SetAlignment.
    destruct ((0 <=? column) && (column <? len (alignments t))) eqn:E;
      [|now exists t].
    apply andb_true_iff in E. destruct E as [E1 E2].
    apply Z.leb_le in E1. apply Z.ltb_lt in E2.
    destruct (store (alignments t) column alignment) as [al|] eqn:Es.
    + eexists. split; [reflexivity|]. cbn [alignments headers].
      now rewrite (store_length _ _ _ _ Es).
    + unfold store in Es.
      replace ((column <? 0) || (len (alignments t) <=? column)) with false
        in Es
        by (symmetry; apply orb_false_iff; split;
            [apply Z.ltb_ge | apply Z.leb_gt]; lia).
      discriminate Es.
  - unfold SetAlignments.
    pose proof (SetAlignments_step als [] (alignments t) t eq_refl) as H.
    change (len (@nil Alignment)) with 0 in H. rewrite H.
    eexists. split; [reflexivity|]. cbn [alignments headers app].
    rewrite length_app, length_firstn, length_skipn. lia.
Qed.

Lemma table_stays_aligned_witness :
  aligned (WithHeaders NewTableBuilder ["Name"; "Age"])
  /\ aligned (AddRow NewTableBuilder ["x"]).
Proof.
  pose proof (table_stays_aligned NewTableBuilder ["Name"; "Age"] ["x"] []
                (fun s => s) 0 AlignLeft [] eq_refl) as H.
  split; [exact (proj1 (proj2 H)) | exact (proj1 (proj2 (proj2 H)))].
Defined.

Lemma update_nth {A : Type} (d v : A) :
  forall (xs : list A) (i : nat),
    (i < List.length xs)%nat ->
    nth i (firstn i xs ++ v :: skipn (Datatypes.S i) xs) d = v
    /\ forall j, j <> i ->
                 nth j (firstn i xs ++ v :: skipn (Datatypes.S i) xs) d
                 = nth j xs d.
Proof.
  induction xs as [|x xs IH]; intros i Hi; [cbn in Hi; lia|].
  destruct i as [|i].
  - split; [reflexivity|]. intros [|j] Hj; [contradiction | reflexivity].
  - cbn [List.length] in Hi. destruct (IH i ltac:(lia)) as [H1 H2].
    split; [exact H1|]. intros [|j] Hj; [reflexivity|].
    cbn. apply H2. lia.
Qed.

(** [SetAlignment] checks the column: a column that is negative or not below
    the number of alignments leaves the builder as it is; a column in range
    changes that alignment and no other, and neither headers nor rows. *)
Theorem SetAlignment_column (t : TableBuilder) (column : Z)
    (alignment : Alignment) :
  (column < 0 \/ len (alignments t) <= column ->
   SetAlignment t column alignment = Some t)
  /\ (0 <= column < len (alignments t) ->
      exists t',
        SetAlignment t column alignment = Some t'
        /\ headers t' = headers t /\ rows t' = rows t
        /\ List.length (alignments t') = List.length (alignments t)
        /\ nth (Z.to_nat column) (alignments t') AlignDefault = alignment
        /\ forall j, j <> Z.to_nat column ->
                     nth j (alignments t') AlignDefault
                     = nth j (alignments t) AlignDefault).
Proof.
  unfold SetAlignment. split.
  - intros H.
    replace ((0 <=? column) && (column <? len (alignments t))) with false;
      [reflexivity|].
    symmetry. apply andb_false_iff.
    destruct H; [left; apply Z.leb_gt | right; apply Z.ltb_ge]; lia.
  - intros H.
    replace ((0 <=? column) && (column <? len (alignments t))) with true
      by (symmetry; apply andb_true_iff; split;
          [apply Z.leb_le | apply Z.ltb_lt]; lia).
    unfold store.
    replace ((column <? 0) || (len (alignments t) <=? column)) with false
      by (symmetry; apply orb_false_iff; split;
          [apply Z.ltb_ge | apply Z.leb_gt]; lia).
    eexists. split; [reflexivity|]. cbn [headers rows alignments].
    split; [reflexivity|]. split; [reflexivity|].
    assert (Hi : (Z.to_nat column < List.length (alignments t))%nat)
      by (unfold len in H; lia).
    destruct (update_nth AlignDefault alignment (alignments t)
                (Z.to_nat column) Hi) as [H1 H2].
    split; [|split; [exact H1 | exact H2]].
    apply update_length. exact Hi.
Qed.

Lemma SetAlignment_column_witness :
  SetAlignment (WithHeaders NewTableBuilder ["a"; "b"]) 5 AlignRight
  = Some (WithHeaders NewTableBuilder ["a"; "b"])
  /\ exists t',
       SetAlignment (WithHeaders NewTableBuilder ["a"; "b"]) 1 AlignRight
       = Some t'
       /\ nth 1 (alignments t') AlignDefault = AlignRight.
Proof.
  split.
  - apply (proj1 (SetAlignment_column
                    (WithHeaders NewTableBuilder ["a"; "b"]) 5 AlignRight)).
    right. vm_compute. discriminate.
  - destruct (proj2 (SetAlignment_column
                       (WithHeaders NewTableBuilder ["a"; "b"]) 1 AlignRight))
      as [t' [H [_ [_ [_ [Hn _]]]]]].
    + split; [lia | reflexivity].
    + exists t'. split; [exact H | exact Hn].
Defined.

(** [SetAlignments] sets the alignments of the first columns in order and
    ignores the alignments given beyond the last column; it never panics. *)
Theorem SetAlignments_prefix (t : TableBuilder) (als : list Alignment) :
  SetAlignments t als
  = Some (mkTable (headers t) (rows t)
            (firstn (List.length (alignments t)) als
             ++ skipn (List.length als) (alignments t))%list
            (headerBuilder t)).
Proof.
  unfold SetAlignments.
  pose proof (SetAlignments_step als [] (alignments t) t eq_refl) as H.
  change (len (@nil Alignment)) with 0 in H. exact H.
Qed.

(** Headers given in two calls are the headers given in one: [WithHeaders]
    appends, and pads the alignments up to the number of headers. *)
Theorem WithHeaders_twice (t : TableBuilder) (hs1 hs2 : list string) :
  WithHeaders (WithHeaders t hs1) hs2 = WithHeaders t (hs1 ++ hs2).
Proof.
  assert (Heta : forall u hs,
             WithHeaders u hs
             = mkTable (headers u ++ hs)%list (rows u)
                       (alignments (WithHeaders u hs)) (headerBuilder u))
    by reflexivity.
  rewrite (Heta (WithHeaders t hs1) hs2), (Heta t (hs1 ++ hs2)%list).
  rewrite !WithHeaders_alignments.
  change (headers (WithHeaders t hs1)) with (headers t ++ hs1)%list.
  change (rows (WithHeaders t hs1)) with (rows t).
  change (headerBuilder (WithHeaders t hs1)) with (headerBuilder t).
  rewrite <- !app_assoc, <- repeat_app.
  rewrite !length_app, repeat_length. do 3 f_equal. lia.
Qed.

(** [AddRows] appends the rows in order and changes nothing else. *)
Theorem AddRows_appends (t : TableBuilder) (rs : list (list string)) :
  AddRows t rs
  = mkTable (headers t) (rows t ++ rs)%list (alignments t) (headerBuilder t).
Proof. apply AddRows_fields. Qed.

(** ** The table builder: [Build] *)

Lemma Join_concatAll (x : string) (xs : list string) (sep : string) :
  Join (x :: xs) sep = x ++ concatAll (map (fun y => sep ++ y) xs).
Proof.
  revert x. induction xs as [|y xs IH]; intros x.
  - cbn. now rewrite append_nil_r.
  - rewrite Join_cons by discriminate. cbn [map concatAll].
    now rewrite IH, !append_assoc.
Qed.

(** A loop that writes a separator before every element but the first
    writes the elements joined by the separator. *)
Lemma rangeFold_separated (f : string -> string) (sep : string) :
  forall (xs : list string) (i : Z) (sb : string),
    0 < i ->
    rangeFold i xs
      (fun i x sb => let sb := if 0 <? i then sb ++ sep else sb in sb ++ f x)
      sb
    = sb ++ concatAll (map (fun y => sep ++ y) (map f xs)).
Proof.
  induction xs as [|x xs IH]; intros i sb Hi.
  - cbn. now rewrite append_nil_r.
  - cbn [rangeFold map concatAll]. cbv zeta.
    replace (0 <? i) with true by (symmetry; apply Z.ltb_lt; lia).
    rewrite IH by lia. now rewrite !append_assoc.
Qed.

Lemma rangeFold_joined (f : string -> string) (sep : string)
    (xs : list string) (sb : string) :
  rangeFold 0 xs
    (fun i x sb => let sb := if 0 <? i then sb ++ sep else sb in sb ++ f x)
    sb
  = sb ++ Join (map f xs) sep.
Proof.
  destruct xs as [|x xs]; [cbn; now rewrite append_nil_r|].
  cbn [rangeFold map]. cbv zeta. change (0 <? 0) with false. cbv iota.
  rewrite rangeFold_separated by lia.
  now rewrite Join_concatAll, append_assoc.
Qed.

(** The loop of [Build] over the cells of a row. *)
Lemma rangeFold_cells (numHeaders : Z) :
  forall (row : list string) (i : Z) (sb : string),
    0 < i ->
    rangeFold i row
      (fun i cell sb =>
         let sb := if 0 <? i then sb ++ " | " else sb in
         if i <? numHeaders then sb ++ cell else sb)
      sb
    = sb ++ concatAll (map (fun y => " | " ++ y) (cellsFrom numHeaders i row)).
Proof.
  induction row as [|c row IH]; intros i sb Hi.
  - cbn. now rewrite append_nil_r.
  - cbn [rangeFold cellsFrom map concatAll]. cbv zeta.
    replace (0 <? i) with true by (symmetry; apply Z.ltb_lt; lia).
    rewrite IH by lia.
    destruct (i <? numHeaders); rewrite !append_assoc; reflexivity.
Qed.

Lemma rangeFold_cells_joined (numHeaders : Z) (row : list string)
    (sb : string) :
  rangeFold 0 row
    (fun i cell sb =>
       let sb := if 0 <? i then sb ++ " | " else sb in
       if i <? numHeaders then sb ++ cell else sb)
    sb
  = sb ++ Join (cellsFrom numHeaders 0 row) " | ".
Proof.
  destruct row as [|c row]; [cbn; now rewrite append_nil_r|].
  cbn [rangeFold cellsFrom]. cbv zeta. change (0 <? 0) with false. cbv iota.
  rewrite rangeFold_cells by lia. rewrite Join_concatAll.
  destruct (0 <? numHeaders); rewrite ?append_assoc; reflexivity.
Qed.

Lemma cellsFrom_firstn (numHeaders : Z) :
  forall (row : list string) (i : Z),
    0 <= i ->
    cellsFrom numHeaders i row
    = (firstn (Z.to_nat (numHeaders - i)) row
       ++ repeat EmptyString (List.length row - Z.to_nat (numHeaders - i)))%list.
Proof.
  induction row as [|c row IH]; intros i Hi.
  - cbn. now rewrite firstn_nil.
  - cbn [cellsFrom]. rewrite IH by lia.
    destruct (i <? numHeaders) eqn:E.
    + apply Z.ltb_lt in E.
      replace (Z.to_nat (numHeaders - i))
        with (Datatypes.S (Z.to_nat (numHeaders - (i + 1)))) by lia.
      reflexivity.
    + apply Z.ltb_ge in E.
      replace (Z.to_nat (numHeaders - i)) with 0%nat by lia.
      replace (Z.to_nat (numHeaders - (i + 1))) with 0%nat by lia.
      cbn [firstn app List.length]. rewrite !Nat.sub_0_r. reflexivity.
Qed.

Lemma countFold_append (x : string) :
  forall (k : nat) (i : Z) (sb : string),
    countFold k i (fun _ sb => sb ++ x) sb = sb ++ replicate k x.
Proof.
  induction k as [|k IH]; intros i sb.
  - cbn. now rewrite append_nil_r.
  - cbn [countFold replicate]. now rewrite IH, append_assoc.
Qed.

Lemma Join_empty_cells (k : nat) (sep : string) :
  Join (repeat EmptyString (Datatypes.S k)) sep = replicate k sep.
Proof.
  induction k as [|k IH]; [reflexivity|].
  change (repeat EmptyString (Datatypes.S (Datatypes.S k)))
    with (EmptyString :: repeat EmptyString (Datatypes.S k)).
  rewrite Join_cons by discriminate. rewrite IH. reflexivity.
Qed.

Lemma Join_padded (xs : list string) (k : nat) (sep : string) :
  xs <> [] ->
  Join (xs ++ repeat EmptyString k) sep = Join xs sep ++ replicate k sep.
Proof.
  intros Hne. destruct k as [|k].
  - cbn. now rewrite app_nil_r, append_nil_r.
  - rewrite Join_app by (auto; discriminate).
    rewrite Join_empty_cells. reflexivity.
Qed.

Lemma Build_row_empty (hs : list string) (sb : string) :
  Build_row hs [] sb
  = sb ++ tableLine (repeat EmptyString (Datatypes.S (List.length hs))).
Proof.
  unfold Build_row, forFold, tableLine. cbn [rangeFold].
  rewrite countFold_append, Join_empty_cells.
  change (len (@nil string)) with 0. rewrite Z.sub_0_r.
  unfold len. rewrite Nat2Z.id. now rewrite !append_assoc.
Qed.

Lemma Build_row_cells (hs row : list string) (sb : string) :
  row <> [] ->
  Build_row hs row sb
  = sb ++ tableLine (firstn (List.length hs) row
                     ++ repeat EmptyString (List.length row - List.length hs)
                     ++ repeat EmptyString (List.length hs - List.length row)).
Proof.
  intros Hne. unfold Build_row, forFold, tableLine.
  rewrite rangeFold_cells_joined, countFold_append.
  rewrite cellsFrom_firstn by lia. rewrite Z.sub_0_r.
  unfold len. rewrite Nat2Z.id.
  replace (Z.to_nat (Z.of_nat (List.length hs) - Z.of_nat (List.length row)))
    with (List.length hs - List.length row)%nat by lia.
  rewrite (app_assoc (firstn _ _)).
  rewrite (Join_padded (firstn (List.length hs) row
                        ++ repeat EmptyString
                             (List.length row - List.length hs))).
  - now rewrite !append_assoc.
  - destruct row as [|c row]; [contradiction|].
    destruct hs; cbn; discriminate.
Qed.

Lemma Build_row_append (hs row : list string) (sb : string) :
  Build_row hs row sb = sb ++ Build_row hs row EmptyString.
Proof.
  destruct row as [|c row].
  - now rewrite !Build_row_empty.
  - now rewrite !(Build_row_cells hs (c :: row)) by discriminate.
Qed.

Lemma rangeFold_rows (hs : list string) (rs : list (list string)) :
  forall (i : Z) (sb : string),
    rangeFold i rs (fun _ row sb => Build_row hs row sb) sb
    = sb ++ concatAll (map (fun row => Build_row hs row EmptyString) rs).
Proof.
  induction rs as [|r rs IH]; intros i sb.
  - cbn. now rewrite append_nil_r.
  - cbn [rangeFold map concatAll]. rewrite IH, (Build_row_append hs r sb).
    now rewrite append_assoc.
Qed.

Lemma Build_lines (t : TableBuilder) :
  headers t <> [] ->
  Build t
  = tableLine (map (headerBuilder t) (headers t))
    ++ tableLine (map alignmentMarker (alignments t))
    ++ concatAll (map (fun row => Build_row (headers t) row EmptyString)
                      (rows t)).
Proof.
  intros Hne. unfold Build.
  replace (len (headers t) =? 0) with false
    by (symmetry; apply Z.eqb_neq; destruct (headers t);
        [contradiction | rewrite len_cons; pose proof (len_nonneg l); lia]).
  rewrite rangeFold_rows, !rangeFold_joined. unfold tableLine.
  cbn [append]. now rewrite !append_assoc.
Qed.

Lemma Build_row_exact (hs row : list string) (sb : string) :
  List.length row = List.length hs ->
  Build_row hs row sb = sb ++ tableLine row.
Proof.
  intros Hlen. destruct row as [|c row].
  - destruct hs; [|discriminate Hlen]. now rewrite Build_row_empty.
  - rewrite Build_row_cells by discriminate.
    rewrite Hlen, Nat.sub_diag. cbn [repeat]. rewrite !app_nil_r.
    now rewrite <- Hlen, firstn_all.
Qed.

(** A row that has cells is written as one line of cells: the cells up to
    the number of headers, an empty cell in place of each cell beyond it,
    and an empty cell for each header the row has no cell for. *)
Theorem Build_row_pads_and_blanks (hs row : list string) (sb : string) :
  row <> [] ->
  Build_row hs row sb
  = sb ++ tableLine (firstn (List.length hs) row
                     ++ repeat EmptyString (List.length row - List.length hs)
                     ++ repeat EmptyString (List.length hs - List.length row))
  /\ (List.length row = List.length hs ->
      Build_row hs row sb = sb ++ tableLine row).
Proof.
  intros Hne. split; [now apply Build_row_cells|].
  intros Hlen. rewrite Build_row_cells by assumption.
  rewrite Hlen, Nat.sub_diag. cbn [repeat]. rewrite !app_nil_r.
  now rewrite <- Hlen, firstn_all.
Qed.

Lemma Build_row_pads_and_blanks_witness :
  Build_row ["Name"; "Age"; "City"] ["Alice"; "30"] EmptyString
  = tableLine ["Alice"; "30"; EmptyString]
  /\ Build_row ["Name"; "Age"] ["Alice"; "30"; "Extra"] EmptyString
     = tableLine ["Alice"; "30"; EmptyString].
Proof.
  split.
  - apply (proj1 (Build_row_pads_and_blanks ["Name"; "Age"; "City"]
                    ["Alice"; "30"] EmptyString ltac:(discriminate))).
  - apply (proj1 (Build_row_pads_and_blanks ["Name"; "Age"]
                    ["Alice"; "30"; "Extra"] EmptyString
                    ltac:(discriminate))).
Defined.

(** A row without cells is written with one empty cell more than there are
    headers. *)
Theorem Build_row_without_cells (hs : list string) (sb : string) :
  Build_row hs [] sb
  = sb ++ tableLine (repeat EmptyString (Datatypes.S (List.length hs))).
Proof. apply Build_row_empty. Qed.

(** [Build] writes nothing for a builder without headers, whatever rows it
    holds.  With headers and rows of as many cells as there are headers, it
    writes the line of the styled headers, the line of the alignment
    markers, and one line for each row, in order. *)
Theorem Build_table (t : TableBuilder) :
  (headers t = [] -> Build t = EmptyString)
  /\ (headers t <> [] ->
      (forall row, In row (rows t) ->
                   List.length row = List.length (headers t)) ->
      Build t
      = tableLine (map (headerBuilder t) (headers t))
        ++ tableLine (map alignmentMarker (alignments t))
        ++ concatAll (map tableLine (rows t))).
Proof.
  split.
  - intros H. unfold Build. now rewrite H.
  - intros Hne Hrows. rewrite Build_lines by assumption. do 3 f_equal.
    apply map_ext_in. intros row Hrow.
    rewrite (Build_row_exact (headers t) row EmptyString (Hrows row Hrow)).
    reflexivity.
Qed.

(** The table of the repository's tests. *)
Lemma Build_table_witness :
  Build (AddRow (AddRow (WithHeaders NewTableBuilder ["Name"; "Age"; "City"])
                        ["Alice"; "30"; "New York"])
                ["Bob"; "25"; "San Francisco"])
  = "| Name | Age | City |" ++ NL ++ "| --- | --- | --- |" ++ NL
    ++ "| Alice | 30 | New York |" ++ NL
    ++ "| Bob | 25 | San Francisco |" ++ NL
  /\ Build (AddRow NewTableBuilder ["x"]) = EmptyString.
Proof.
  split.
  - rewrite (proj2 (Build_table _)); [reflexivity | discriminate |].
    intros row Hrow. cbn in Hrow.
    destruct Hrow as [<-|[<-|[]]]; reflexivity.
  - apply (proj1 (Build_table _)). reflexivity.
Defined.

(** Adding a row to a builder with headers adds the line of that row at the
    end of what [Build] writes, and changes nothing before it. *)
Theorem Build_AddRow (t : TableBuilder) (cells : list string) :
  headers t <> [] ->
  Build (AddRow t cells) = Build t ++ Build_row (headers t) cells EmptyString.
Proof.
  intros Hne. rewrite !Build_lines by assumption.
  unfold AddRow. cbn [headers rows alignments headerBuilder].
  rewrite map_app. cbn [map].
  assert (Hc : forall xs y, concatAll (xs ++ [y]) = concatAll xs ++ y).
  { induction xs as [|x xs IH]; intros y; cbn.
    - now rewrite append_nil_r.
    - now rewrite IH, append_assoc. }
  rewrite Hc. now rewrite !append_assoc.
Qed.

Lemma Build_AddRow_witness :
  Build (AddRow (WithHeaders NewTableBuilder ["Name"; "Age"]) ["Alice"; "30"])
  = Build (WithHeaders NewTableBuilder ["Name"; "Age"])
    ++ "| Alice | 30 |" ++ NL.
Proof.
  rewrite (Build_AddRow (WithHeaders NewTableBuilder ["Name"; "Age"])
             ["Alice"; "30"]); [reflexivity | discriminate].
Defined.

(** ** Sections *)

Lemma rangeFold_eachLine (xs : list string) :
  forall (i : Z) (sb : string),
    rangeFold i xs (fun _ item sb => (sb ++ item) ++ NL) sb
    = sb ++ eachLine xs.
Proof.
  induction xs as [|x xs IH]; intros i sb.
  - cbn. now rewrite append_nil_r.
  - cbn [rangeFold eachLine]. rewrite IH. now rewrite !append_assoc.
Qed.

Lemma Section_Build_lines (s : Section) :
  Section_Build s
  = replicate (Z.to_nat (Level s)) "#" ++ " " ++ Title s ++ NL ++ NL
    ++ eachLine (Content s) ++ NL.
Proof.
  unfold Section_Build, forFold.
  rewrite rangeFold_eachLine, countFold_append, Z.sub_0_r.
  cbn [append]. now rewrite !append_assoc.
Qed.

(** What [Build] writes for a section: as many hashes as the level (none
    for a level below 1), the title, an empty line, the items in the order
    they were added, each on a line of its own, and an empty line. *)
Theorem Section_Build_text (s : Section) :
  Section_Build s
  = replicate (Z.to_nat (Level s)) "#" ++ " " ++ Title s ++ NL ++ NL
    ++ eachLine (Content s) ++ NL.
Proof. apply Section_Build_lines. Qed.

(** [NewSection] brings the level into 1..6: a level below 1 becomes 1
    and a level above 6 becomes 6.  For a level in 1..6 the new section
    starts with the line that [Heading] writes for that level. *)
Theorem NewSection_level (level : Z) (title : string) :
  exists k : nat,
    Section_Build (NewSection level title)
    = replicate k "#" ++ " " ++ title ++ NL ++ NL ++ NL
    /\ (level < 1 -> k = 1%nat)
    /\ (6 < level -> k = 6%nat)
    /\ (1 <= level <= 6 ->
        Z.of_nat k = level
        /\ Heading level title = Some (replicate k "#" ++ " " ++ title)).
Proof.
  exists (Z.to_nat (Level (NewSection level title))).
  split; [now rewrite Section_Build_lines|].
  unfold NewSection. cbn [Level].
  destruct (level <? 1) eqn:E1; [apply Z.ltb_lt in E1 | apply Z.ltb_ge in E1].
  { repeat split; intros; lia. }
  destruct (6 <? level) eqn:E2; [apply Z.ltb_lt in E2 | apply Z.ltb_ge in E2].
  { repeat split; intros; lia. }
  split; [intros; lia|]. split; [intros; lia|]. intros _.
  split; [lia|]. unfold Heading.
  replace ((level <? 1) || (6 <? level)) with false
    by (symmetry; apply orb_false_iff; split; apply Z.ltb_ge; lia).
  now rewrite Repeat_in_range by (unfold maxInt; cbn [String.length]; lia).
Qed.

Lemma NewSection_level_witness :
  exists k : nat,
    Section_Build (NewSection 7 "Max") = replicate k "#" ++ " Max" ++ NL ++ NL ++ NL
    /\ k = 6%nat.
Proof.
  destruct (NewSection_level 7 "Max") as [k [H [_ [H6 _]]]].
  exists k. split; [exact H | apply H6; lia].
Defined.

(** ** Usage messages *)

(** [Usage] never panics and writes the warning mark, the alias and each
    option between brackets behind a space, with or without options. *)
Theorem Usage_text (info alias : string) (opts : list string) :
  Usage info alias opts
  = Some (info ++ "⚠️ Usage: `" ++ alias
          ++ concatAll (map (fun opt => " [" ++ opt ++ "]") opts)
          ++ "`." ++ NL).
Proof.
  unfold Usage, Warnf. destruct opts as [|o opts].
  - cbn. now rewrite !append_assoc.
  - replace (0 <? len (o :: opts)) with true
      by (symmetry; apply Z.ltb_lt; rewrite len_cons;
          pose proof (len_nonneg opts); lia).
    unfold make, len. rewrite Nat2Z.id.
    pose proof (rangeOpt_store_map (fun opt => "[" ++ opt ++ "]")
                  (o :: opts) []
                  (repeat EmptyString (List.length (o :: opts)))
                  (repeat_length _ _)) as H.
    cbn [app] in H. change (len (@nil string)) with 0 in H. rewrite H.
    cbn [map]. rewrite Join_concatAll, map_map. cbn [concatAll].
    repeat (rewrite append_assoc || (progress cbn [append])). reflexivity.
Qed.
